(** * Monthly airing calendar: week-window planner, aggregator and
      default-selection policy of the [MonthlySchedule] component

    The component is a React function component written in TypeScript.  Its
    logic is embedded here as Rocq functions over

    - the ECMAScript [Date] operations it calls ([getFullYear], [getMonth],
      [getDate], [getDay], [setDate], [setHours], [new Date(y, m, d)]),
      modelled from the ECMAScript time-value arithmetic ([Day],
      [DayFromYear], [YearFromTime], [MonthFromTime], [MakeDay], ...);
    - a [gmap] from date keys to entry lists for the JavaScript
      [Map<string, ScheduleItem[]>];
    - an explicit record for the React state cells the component writes.

    Conventions of the embedding.  A [Date] is its time value, an integer
    number of milliseconds since the epoch (invalid dates are not modelled).
    The viewer's time zone is a fixed offset [tz] from UTC, in milliseconds
    (no daylight-saving transitions).  Numbers are integers ([Z]);
    [Math.round] of a quotient is the exact round-half-up of the
    rational. *)

From Stdlib Require Import ZArith Lia Bool Sorted.
From stdpp Require Import base tactics option list strings pretty gmap fin_maps.

Local Open Scope Z_scope.

(** ** ECMAScript time values *)

Module JSDate.

Definition msPerDay : Z := 86400000.
Definition msPerHour : Z := 3600000.
Definition msPerMinute : Z := 60000.
Definition msPerSecond : Z := 1000.

Definition Day (t : Z) : Z := t / msPerDay.
Definition TimeWithinDay (t : Z) : Z := t mod msPerDay.

Definition isLeap (y : Z) : bool :=
  if negb (y mod 4 =? 0) then false
  else if negb (y mod 100 =? 0) then true
  else if negb (y mod 400 =? 0) then false
  else true.

Definition DaysInYear (y : Z) : Z := if isLeap y then 366 else 365.

Definition DayFromYear (y : Z) : Z :=
  365 * (y - 1970) + (y - 1969) / 4 - (y - 1901) / 100 + (y - 1601) / 400.

Definition TimeFromYear (y : Z) : Z := msPerDay * DayFromYear y.

(** The year containing day number [d].  ECMAScript specifies it as the
    largest [y] with [DayFromYear y <= d]; this is the usual closed form
    through 400-, 100-, 4- and 1-year cycles counted from 1601-01-01
    (lemma [YearFromDay_spec] below shows it meets the specification). *)
Definition YearFromDay (d : Z) : Z :=
  let n := d + 134774 in
  let q400 := n / 146097 in
  let r400 := n mod 146097 in
  let q100 := Z.min (r400 / 36524) 3 in
  let r100 := r400 - q100 * 36524 in
  let q4 := r100 / 1461 in
  let r4 := r100 mod 1461 in
  let q1 := Z.min (r4 / 365) 3 in
  1601 + 400 * q400 + 100 * q100 + 4 * q4 + q1.

Definition YearFromTime (t : Z) : Z := YearFromDay (Day t).

Definition InLeapYear (t : Z) : Z :=
  if isLeap (YearFromTime t) then 1 else 0.

Definition DayWithinYear (t : Z) : Z := Day t - DayFromYear (YearFromTime t).

(** Day number within the year of the first day of month [m] (0-based). *)
Definition monthStart (leap : Z) (m : Z) : Z :=
  if m <=? 0 then 0
  else if m =? 1 then 31
  else if m =? 2 then 59 + leap
  else if m =? 3 then 90 + leap
  else if m =? 4 then 120 + leap
  else if m =? 5 then 151 + leap
  else if m =? 6 then 181 + leap
  else if m =? 7 then 212 + leap
  else if m =? 8 then 243 + leap
  else if m =? 9 then 273 + leap
  else if m =? 10 then 304 + leap
  else if m =? 11 then 334 + leap
  else 365 + leap.

Definition monthOfYearDay (leap : Z) (dwy : Z) : Z :=
  if dwy <? 31 then 0
  else if dwy <? 59 + leap then 1
  else if dwy <? 90 + leap then 2
  else if dwy <? 120 + leap then 3
  else if dwy <? 151 + leap then 4
  else if dwy <? 181 + leap then 5
  else if dwy <? 212 + leap then 6
  else if dwy <? 243 + leap then 7
  else if dwy <? 273 + leap then 8
  else if dwy <? 304 + leap then 9
  else if dwy <? 334 + leap then 10
  else 11.

Definition MonthFromTime (t : Z) : Z :=
  monthOfYearDay (InLeapYear t) (DayWithinYear t).

Definition DateFromTime (t : Z) : Z :=
  DayWithinYear t - monthStart (InLeapYear t) (MonthFromTime t) + 1.

Definition WeekDay (t : Z) : Z := (Day t + 4) mod 7.

Definition MakeTime (hour min sec ms : Z) : Z :=
  hour * msPerHour + min * msPerMinute + sec * msPerSecond + ms.

Definition MakeDay (year month date : Z) : Z :=
  let ym := year + month / 12 in
  let mn := month mod 12 in
  DayFromYear ym + monthStart (if isLeap ym then 1 else 0) mn + date - 1.

Definition MakeDate (day time : Z) : Z := day * msPerDay + time.

(** The year the [Date] constructor takes [year] for: the years 0..99
    stand for 1900..1999. *)
Definition MakeFullYear (year : Z) : Z :=
  if (0 <=? year) && (year <=? 99) then 1900 + year else year.

End JSDate.

(** ** The [Date] object in the viewer's time zone *)

Section LocalDate.

Import JSDate.

(** Offset of the viewer's local time from UTC, in milliseconds. *)
Variable tz : Z.

Definition Date : Type := Z.

Definition LocalTime (t : Z) : Z := t + tz.
Definition UTC (t : Z) : Z := t - tz.

Definition getTime (d : Date) : Z := d.
Definition getFullYear (d : Date) : Z := YearFromTime (LocalTime d).
Definition getMonth (d : Date) : Z := MonthFromTime (LocalTime d).
Definition getDate (d : Date) : Z := DateFromTime (LocalTime d).
Definition getDay (d : Date) : Z := WeekDay (LocalTime d).

(** [new Date(year, month, date)] *)
Definition Date_ymd (year month date : Z) : Date :=
  UTC (MakeDate (MakeDay (MakeFullYear year) month date) (MakeTime 0 0 0 0)).

(** [d.setDate(date)], returning the updated date. *)
Definition setDate (d : Date) (date : Z) : Date :=
  let t := LocalTime d in
  UTC (MakeDate (MakeDay (YearFromTime t) (MonthFromTime t) date)
                (TimeWithinDay t)).

(** [d.setHours(h, m, s, ms)], returning the updated date. *)
Definition setHours (d : Date) (h m s ms : Z) : Date :=
  let t := LocalTime d in
  UTC (MakeDate (Day t) (MakeTime h m s ms)).

(** [new Date(seconds * 1000)] *)
Definition Date_of_epoch_seconds (s : Z) : Date := s * 1000.

End LocalDate.

(** Year, 0-based month and day of the month of [d], as the viewer's
    calendar shows them. *)
Definition ymd (tz : Z) (d : Date) : Z * Z * Z :=
  (getFullYear tz d, getMonth tz d, getDate tz d).

(** ** JavaScript helpers used by the component *)

(** [Math.round (a / b)] for integers [a] and [b > 0]: the nearest integer,
    halves rounded up. *)
Definition Math_round_div (a b : Z) : Z := (2 * a + b) / (2 * b).

(** The filler of [String.prototype.padStart]: [n] characters of the
    repetition of [pad], [rest] being what is left of the current copy. *)
Fixpoint pad_filler (n : nat) (pad rest : string) : string :=
  match n with
  | O => ""
  | S n' =>
      match rest with
      | String c r => String c (pad_filler n' pad r)
      | EmptyString =>
          match pad with
          | String c r => String c (pad_filler n' pad r)
          | EmptyString => ""
          end
      end
  end.

(** [s.padStart(targetLength, pad)] *)
Definition padStart (targetLength : nat) (pad : string) (s : string) : string :=
  if (targetLength <=? String.length s)%nat then s
  else pad_filler (targetLength - String.length s) pad pad +:+ s.

(** [String(n)] for an integer [n]. *)
Definition String_of_number (n : Z) : string := pretty n.

(** The [Map<string, ScheduleItem[]>] interface, over [gmap]. *)
Definition Map_has {V} (m : gmap string V) (k : string) : bool :=
  bool_decide (is_Some (m !! k)).

(** [m.get(k) || []] *)
Definition Map_get_or_empty {V} (m : gmap string (list V)) (k : string) : list V :=
  default [] (m !! k).

(** ** Data model *)

Inductive AiringStatus := aired | airing_soon | airing_today | upcoming.

Record ScheduleItem := {
  schedule_id : Z;
  airing_at : Z;
  episode : Z;
  anime_id : Z;
  title : string;
  cover_image : string;
  status : string;
  total_episodes : option Z;
  score : Z;
  airs_in_human : string;
  airing_status : AiringStatus;
  airing_time : string;
  airing_date : string
}.

(** [{ ...item, airing_date: key }] *)
Definition with_airing_date (item : ScheduleItem) (key : string) : ScheduleItem :=
  {| schedule_id := schedule_id item;
     airing_at := airing_at item;
     episode := episode item;
     anime_id := anime_id item;
     title := title item;
     cover_image := cover_image item;
     status := status item;
     total_episodes := total_episodes item;
     score := score item;
     airs_in_human := airs_in_human item;
     airing_status := airing_status item;
     airing_time := airing_time item;
     airing_date := key |}.

(** What one weekly request settles to.  [Rejected]: [fetch] or
    [res.json()] rejected (network error, body that is not JSON).
    [Resolved None]: a JSON body without a truthy [schedule] field (an
    error body of a non-2xx response, for one).
    [Resolved (Some sched)]: the [schedule] object, as its entries in
    property order (weekday name, items); every value is an array of
    items, as the cast [items as ScheduleItem[]] takes it to be. *)
Inductive FetchResult :=
| Rejected
| Resolved (schedule : option (list (string * list ScheduleItem))).

(** The React state cells written by [loadMonthSchedule]. *)
Record UIState := {
  scheduleData : gmap string (list ScheduleItem);
  loading : bool;
  loadingProgress : Z;
  selectedDate : option string;
  selectedAnime : list ScheduleItem
}.

(** ** The component *)

Section MonthlySchedule.

Variable tz : Z.

Definition formatLocalDateKey (date : Date) : string :=
  let year := getFullYear tz date in
  let month := padStart 2 "0" (String_of_number (getMonth tz date + 1)) in
  let day := padStart 2 "0" (String_of_number (getDate tz date)) in
  String_of_number year +:+ "-" +:+ month +:+ "-" +:+ day.

(** The [while (current <= endDate)] loop of [calendarDays]; [None] when
    the fuel runs out before the loop condition fails. *)
Fixpoint calendarDays_loop (fuel : nat) (current endDate : Date)
    (days : list Date) : option (list Date) :=
  match fuel with
  | O => None
  | S fuel' =>
      if getTime current <=? getTime endDate then
        calendarDays_loop fuel'
          (setDate tz current (getDate tz current + 1)) endDate
          (days ++ [current])
      else Some days
  end.

(** [startDate] and [endDate] of [calendarDays]: the bounds of the grid of
    the month displayed for [currentDate]. *)
Definition gridStart (currentDate : Date) : Date :=
  let year := getFullYear tz currentDate in
  let month := getMonth tz currentDate in
  let firstDay := Date_ymd tz year month 1 in
  setDate tz firstDay (getDate tz firstDay - getDay tz firstDay).

Definition gridEnd (currentDate : Date) : Date :=
  let year := getFullYear tz currentDate in
  let month := getMonth tz currentDate in
  let lastDay := Date_ymd tz year (month + 1) 0 in
  setDate tz lastDay (getDate tz lastDay + (6 - getDay tz lastDay)).

(** [calendarDays], with the loop's variant (the days left up to
    [endDate], plus the final test) as fuel. *)
Definition calendarDays (currentDate : Date) : option (list Date) :=
  let startDate := gridStart currentDate in
  let endDate := gridEnd currentDate in
  calendarDays_loop
    (Z.to_nat ((getTime endDate - getTime startDate) / JSDate.msPerDay + 2))
    startDate endDate [].

(** [dayOfWeek === 0 ? -6 : 1 - dayOfWeek], the expression of both
    [daysToMonday] and [daysToFirstMonday]. *)
Definition daysToMonday (dayOfWeek : Z) : Z :=
  if dayOfWeek =? 0 then -6 else 1 - dayOfWeek.

(** Monday of the real-world current week, at local midnight ([now] is
    what [new Date()] returns). *)
Definition currentMonday (now : Date) : Date :=
  let today := setHours tz now 0 0 0 0 in
  let dayOfWeek := getDay tz today in
  setDate tz today (getDate tz today + daysToMonday dayOfWeek).

(** Monday of the week of the first grid day. *)
Definition firstWeekMonday (firstCalendarDay : Date) : Date :=
  let firstDayOfWeek := getDay tz firstCalendarDay in
  setDate tz firstCalendarDay
    (getDate tz firstCalendarDay + daysToMonday firstDayOfWeek).

Definition msPerWeek : Z := 7 * 24 * 60 * 60 * 1000.

(** The [for] loop of [weeksToFetch], with [n] iterations left. *)
Fixpoint push_weeks (n : nat) (startOffset i : Z) (weeks : list Z) : list Z :=
  match n with
  | O => weeks
  | S n' => push_weeks n' startOffset (i + 1) (weeks ++ [startOffset + i])
  end.

(** [weeksToFetch]; [None] is the [TypeError] of reading [getDay] off an
    empty [calendarDays]. *)
Definition weeksToFetch (now : Date) (calendarDays : list Date) : option (list Z) :=
  match calendarDays with
  | [] => None
  | firstCalendarDay :: _ =>
      let startOffset :=
        Math_round_div
          (getTime (firstWeekMonday firstCalendarDay) - getTime (currentMonday now))
          msPerWeek in
      Some (push_weeks 6 startOffset 0 [])
  end.

(** *** Aggregation *)

(** The body of the inner [forEach]: one item of a week payload. *)
Definition add_item (newScheduleData : gmap string (list ScheduleItem))
    (item : ScheduleItem) : gmap string (list ScheduleItem) :=
  let airingDate := Date_of_epoch_seconds (airing_at item) in
  let localDateKey := formatLocalDateKey airingDate in
  let m :=
    if negb (Map_has newScheduleData localDateKey)
    then <[localDateKey := []]> newScheduleData
    else newScheduleData in
  <[localDateKey :=
      Map_get_or_empty m localDateKey ++ [with_airing_date item localDateKey]]> m.

Definition add_items (m : gmap string (list ScheduleItem))
    (items : list ScheduleItem) : gmap string (list ScheduleItem) :=
  foldl add_item m items.

(** [Object.entries(schedule).forEach(([, items]) => ...)] *)
Definition add_schedule (m : gmap string (list ScheduleItem))
    (schedule : list (string * list ScheduleItem)) :
    gmap string (list ScheduleItem) :=
  foldl (λ m entry, add_items m entry.2) m schedule.

(** The inner [try]/[catch] of the loop, for one settled request. *)
Definition add_week (m : gmap string (list ScheduleItem))
    (res : FetchResult) : gmap string (list ScheduleItem) :=
  match res with
  | Rejected => m
  | Resolved None => m
  | Resolved (Some schedule) => add_schedule m schedule
  end.

(** *** Default selection *)

(** What the closure of [loadMonthSchedule] captured at the render that
    started it. *)
Record Props := {
  p_currentDate : Date;
  p_calendarDays : list Date;
  p_weeksToFetch : list Z;
  p_selectedDate : option string
}.

(** Truthiness of a [string | null]. *)
Definition truthy (s : option string) : bool :=
  match s with
  | Some k => negb (String.eqb k "")
  | None => false
  end.

Definition has_selected (m : gmap string (list ScheduleItem))
    (s : option string) : bool :=
  match s with
  | Some k => Map_has m k
  | None => false
  end.

Definition same_month (d currentDate : Date) : bool :=
  (getMonth tz d =? getMonth tz currentDate)
  && (getFullYear tz d =? getFullYear tz currentDate).

Definition has_anime (m : gmap string (list ScheduleItem)) (d : Date) : bool :=
  let key := formatLocalDateKey d in
  Map_has m key && (0 <? length (Map_get_or_empty m key))%nat.

(** The statements after the loop, from [setScheduleData] to the end of
    the [try] block. *)
Definition commit (p : Props) (newScheduleData : gmap string (list ScheduleItem))
    (now : Date) (st : UIState) : UIState :=
  let st := {| scheduleData := newScheduleData;
               loading := loading st;
               loadingProgress := loadingProgress st;
               selectedDate := selectedDate st;
               selectedAnime := selectedAnime st |} in
  let select key anime :=
    {| scheduleData := scheduleData st;
       loading := loading st;
       loadingProgress := loadingProgress st;
       selectedDate := Some key;
       selectedAnime := anime |} in
  if negb (truthy (p_selectedDate p))
     || negb (has_selected newScheduleData (p_selectedDate p))
  then
    let today := now in
    let todayStr := formatLocalDateKey today in
    if same_month today (p_currentDate p) then
      select todayStr (Map_get_or_empty newScheduleData todayStr)
    else
      let firstOfMonth :=
        Date_ymd tz (getFullYear tz (p_currentDate p))
                 (getMonth tz (p_currentDate p)) 1 in
      let firstKey := formatLocalDateKey firstOfMonth in
      let monthDays :=
        List.filter (λ d, same_month d (p_currentDate p)) (p_calendarDays p) in
      let firstDayWithAnime := List.find (has_anime newScheduleData) monthDays in
      match firstDayWithAnime with
      | Some d =>
          let key := formatLocalDateKey d in
          select key (Map_get_or_empty newScheduleData key)
      | None => select firstKey []
      end
  else st.

(** The [finally] block. *)
Definition finally (st : UIState) : UIState :=
  {| scheduleData := scheduleData st;
     loading := false;
     loadingProgress := 100;
     selectedDate := selectedDate st;
     selectedAnime := selectedAnime st |}.

Definition setLoadingProgress (v : Z) (st : UIState) : UIState :=
  {| scheduleData := scheduleData st;
     loading := loading st;
     loadingProgress := v;
     selectedDate := selectedDate st;
     selectedAnime := selectedAnime st |}.

(** The statements before the loop: [setLoading(true)],
    [setLoadingProgress(0)]. *)
Definition begin_load (st : UIState) : UIState :=
  {| scheduleData := scheduleData st;
     loading := true;
     loadingProgress := 0;
     selectedDate := selectedDate st;
     selectedAnime := selectedAnime st |}.

(** *** [loadMonthSchedule] *)

(** [Math.round((completedWeeks / weeksToFetch.length) * 100)] *)
Definition progress (completedWeeks : Z) (p : Props) : Z :=
  Math_round_div (completedWeeks * 100) (Z.of_nat (length (p_weeksToFetch p))).

(** The [for (const offset of weeksToFetch)] loop, run without
    interruption: [fetch offset] is what the request for [offset] settles
    to. *)
Fixpoint fetch_loop (p : Props) (fetch : Z → FetchResult) (pending : list Z)
    (newScheduleData : gmap string (list ScheduleItem)) (completedWeeks : Z)
    (st : UIState) : gmap string (list ScheduleItem) * UIState :=
  match pending with
  | [] => (newScheduleData, st)
  | offset :: rest =>
      let newScheduleData := add_week newScheduleData (fetch offset) in
      let completedWeeks := completedWeeks + 1 in
      let st := setLoadingProgress (progress completedWeeks p) st in
      fetch_loop p fetch rest newScheduleData completedWeeks st
  end.

(** One whole call of [loadMonthSchedule], from the state [st] it starts
    in to the state it leaves; [now] is the clock read after the loop. *)
Definition loadMonthSchedule (p : Props) (fetch : Z → FetchResult) (now : Date)
    (st : UIState) : UIState :=
  let st := begin_load st in
  let '(newScheduleData, st) :=
    fetch_loop p fetch (p_weeksToFetch p) ∅ 0 st in
  finally (commit p newScheduleData now st).

(** *** Calls in flight

    [loadMonthSchedule] is an [async] function: it runs on the event loop
    up to its next [await] and is resumed when the awaited request
    settles.  A call in flight is its closure and its local variables.
    The awaits of one iteration (the pause of 100 ms, [fetch],
    [res.json()]) count as one suspension: the call writes nothing between
    them. *)
Record Round := {
  r_props : Props;
  r_pending : list Z;
  r_newScheduleData : gmap string (list ScheduleItem);
  r_completedWeeks : Z
}.

(** The call up to its first [await]. *)
Definition start_round (p : Props) (now : Date) (st : UIState) : Round * UIState :=
  let st := begin_load st in
  let r := {| r_props := p; r_pending := p_weeksToFetch p;
              r_newScheduleData := ∅; r_completedWeeks := 0 |} in
  match p_weeksToFetch p with
  | [] => (r, finally (commit p ∅ now st))
  | _ :: _ => (r, st)
  end.

(** The call resumed with the settled request [res] for the offset it
    waits for, up to its next [await] or, after the last week, to its end.
    A finished call is not resumed. *)
Definition resume_round (r : Round) (res : FetchResult) (now : Date)
    (st : UIState) : Round * UIState :=
  match r_pending r with
  | [] => (r, st)
  | _ :: rest =>
      let newScheduleData := add_week (r_newScheduleData r) res in
      let completedWeeks := r_completedWeeks r + 1 in
      let st := setLoadingProgress (progress completedWeeks (r_props r)) st in
      let r' := {| r_props := r_props r; r_pending := rest;
                   r_newScheduleData := newScheduleData;
                   r_completedWeeks := completedWeeks |} in
      match rest with
      | [] => (r', finally (commit (r_props r) newScheduleData now st))
      | _ :: _ => (r', st)
      end
  end.

(** The component on the event loop: its state cells and every call of
    [loadMonthSchedule] started so far, oldest first. *)
Record System := {
  ui : UIState;
  rounds : list Round
}.

Inductive Event :=
| Start (p : Props) (now : Date)
| Settle (i : nat) (res : FetchResult) (now : Date).

Definition step (s : System) (e : Event) : System :=
  match e with
  | Start p now =>
      let '(r, st) := start_round p now (ui s) in
      {| ui := st; rounds := rounds s ++ [r] |}
  | Settle i res now =>
      match rounds s !! i with
      | Some r =>
          let '(r', st) := resume_round r res now (ui s) in
          {| ui := st; rounds := <[i := r']> (rounds s) |}
      | None => s
      end
  end.

Definition run (s : System) (trace : list Event) : System :=
  foldl step s trace.

(** What the closure of the effect holds at a render showing the month of
    [currentDate] with the selection [selected], when the clock reads
    [now]. *)
Definition render_props (now currentDate : Date) (selected : option string) :
    option Props :=
  grid ← calendarDays currentDate;
  weeks ← weeksToFetch now grid;
  Some {| p_currentDate := currentDate; p_calendarDays := grid;
          p_weeksToFetch := weeks; p_selectedDate := selected |}.

End MonthlySchedule.

(** ** Vocabulary of the statements *)

Section Vocabulary.

Import JSDate.

Variable tz : Z.

(** Number of days of month [m] (0-based) of year [y]. *)
Definition daysInMonth (y m : Z) : Z :=
  if m =? 1 then (if isLeap y then 29 else 28)
  else if (m =? 3) || (m =? 5) || (m =? 8) || (m =? 10) then 30
  else 31.

(** Local day number of a date, and the date [k] days later at the same
    local time of day. *)
Definition localDay (d : Date) : Z := Day (LocalTime tz d).
Definition addDays (d : Date) (k : Z) : Date := d + k * msPerDay.

Definition atMidnight (d : Date) : Prop :=
  LocalTime tz d = localDay d * msPerDay.

(** The [n] consecutive days from [start]. *)
Definition daysFrom (start : Date) (n : nat) : list Date :=
  (λ i, addDays start (Z.of_nat i)) <$> seq 0 n.

(** First and last day of the month displayed for [currentDate]
    ([firstDay] and [lastDay] of [calendarDays]). *)
Definition firstOfMonth (currentDate : Date) : Date :=
  Date_ymd tz (getFullYear tz currentDate) (getMonth tz currentDate) 1.

Definition lastOfMonth (currentDate : Date) : Date :=
  Date_ymd tz (getFullYear tz currentDate) (getMonth tz currentDate + 1) 0.

(** The number of days from [firstDay] to [lastDay]: the length of the
    displayed month in the year the [Date] constructor takes the displayed
    year for. *)
Definition monthLength (currentDate : Date) : Z :=
  daysInMonth (MakeFullYear (getFullYear tz currentDate))
    (getMonth tz currentDate).

(** Local midnight at the start of day [date] of month [m] (0-based) of
    year [y]. *)
Definition localMidnight (y m date : Z) : Date :=
  UTC tz (MakeDate (MakeDay y m date) 0).

(** Days shown before the first of the month, and after its last day. *)
Definition leadDays (currentDate : Date) : Z :=
  getDay tz (firstOfMonth currentDate).
Definition trailDays (currentDate : Date) : Z :=
  6 - getDay tz (lastOfMonth currentDate).

Definition gridLength (currentDate : Date) : Z :=
  leadDays currentDate + monthLength currentDate + trailDays currentDate.

(** Modelled from the spec: the remote schedule endpoint, which this
    repository's client only calls, serves for a week offset [k] the
    Monday-anchored calendar week [k] weeks after the real-world current
    week (offset 0).  [in_week now k d]: the calendar day of [d] is one of
    the seven days of that week. *)
Definition in_week (now : Date) (offset : Z) (d : Date) : bool :=
  let monday := localDay (currentMonday tz now) + 7 * offset in
  (monday <=? localDay d) && (localDay d <? monday + 7).

(** [d] falls in one of the weeks requested by [weeks]. *)
Definition fetched (now : Date) (weeks : list Z) (d : Date) : bool :=
  existsb (λ offset, in_week now offset d) weeks.

End Vocabulary.

(** ** Vocabulary of the aggregation statements *)

Section AggregationVocabulary.

Variable tz : Z.

(** The local date key of an instant given in epoch seconds (the two
    statements [new Date(item.airing_at * 1000)] and [formatLocalDateKey]
    of the aggregation loop). *)
Definition epochToLocalDateKey (epochSeconds : Z) : string :=
  formatLocalDateKey tz (Date_of_epoch_seconds epochSeconds).

(** The copy of a payload item that the aggregation stores. *)
Definition stored_entry (item : ScheduleItem) : ScheduleItem :=
  with_airing_date item (epochToLocalDateKey (airing_at item)).

(** The items of one [schedule] object, in the order the loops visit
    them. *)
Definition schedule_items (schedule : list (string * list ScheduleItem)) :
    list ScheduleItem :=
  concat (snd <$> schedule).

(** The [schedule] objects of the requests that succeeded, in request
    order. *)
Definition successful_schedules (results : list FetchResult) :
    list (list (string * list ScheduleItem)) :=
  omap (λ res, match res with
               | Resolved (Some schedule) => Some schedule
               | _ => None
               end) results.

Definition fetched_items (results : list FetchResult) : list ScheduleItem :=
  concat (schedule_items <$> successful_schedules results).

(** All entries of an index, and how many of them carry a schedule id. *)
Definition index_entries (m : gmap string (list ScheduleItem)) : list ScheduleItem :=
  concat (snd <$> map_to_list m).

Definition count_id (id : Z) (l : list ScheduleItem) : nat :=
  length (filter (λ e, schedule_id e = id) l).

End AggregationVocabulary.

(** ** Vocabulary of the date key statements *)


(** Inverse of [padStart 2 "0"] on the decimal numerals below 100. *)
Definition unpad (s : string) : string :=
  match s with
  | String c0 (String c "") =>
      if String.eqb (String c0 "") "0" then String c "" else s
  | _ => s
  end.

(** The six characters of a date key after the year. *)
Definition month_day_suffix (tz : Z) (d : Date) : string :=
  "-" +:+ padStart 2 "0" (String_of_number (getMonth tz d + 1)) +:+ "-"
  +:+ padStart 2 "0" (String_of_number (getDate tz d)).

(** No key of the index holds an empty list. *)
Definition no_empty_lists (m : gmap string (list ScheduleItem)) : Prop :=
  ∀ k, m !! k ≠ Some [].

(** ** The older revision of the component

    [frontend/components/MonthlySchedule.tsx] is an earlier revision of the
    same component.  It differs in the two places below. *)

Module Legacy.

(** The year of [toISOString]: four digits for the years 0..9999, a sign
    and six digits for the others. *)
Definition isoYear (year : Z) : string :=
  if (0 <=? year) && (year <=? 9999) then padStart 4 "0" (String_of_number year)
  else (if 0 <=? year then "+" else "-")
       +:+ padStart 6 "0" (String_of_number (Z.abs year)).

(** The part of [toISOString] before the [T], for a year, a month (1..12)
    and a day of the month. *)
Definition isoDate (year month day : Z) : string :=
  isoYear year +:+ "-"
  +:+ padStart 2 "0" (String_of_number month) +:+ "-"
  +:+ padStart 2 "0" (String_of_number day).

(** [formatDateKey]: [date.toISOString().split('T')[0]], the date in
    UTC. *)
Definition formatDateKey (date : Date) : string :=
  isoDate (getFullYear 0 date) (getMonth 0 date + 1) (getDate 0 date).

(** The body of the inner [forEach] of its [loadMonthSchedule]: the item
    is stored as it is under the [airing_date] the server gave it. *)
Definition add_item (newScheduleData : gmap string (list ScheduleItem))
    (item : ScheduleItem) : gmap string (list ScheduleItem) :=
  let dateKey := airing_date item in
  let m :=
    if negb (Map_has newScheduleData dateKey)
    then <[dateKey := []]> newScheduleData
    else newScheduleData in
  <[dateKey := Map_get_or_empty m dateKey ++ [item]]> m.

End Legacy.

(** ** The default-selection policy, as the spec words it *)

Section SelectionPolicy.

Variable tz : Z.


Definition in_displayed_month (today displayed : Date) : bool :=
  bool_decide (getFullYear tz today = getFullYear tz displayed
               ∧ getMonth tz today = getMonth tz displayed).





End SelectionPolicy.

(** ** Data of the examples *)

(** An episode airing at 2025-01-15T07:30:00Z. *)
Definition example_item : ScheduleItem :=
  {| schedule_id := 42;
     airing_at := 1736926200;
     episode := 3;
     anime_id := 1001;
     title := "Example";
     cover_image := "";
     status := "RELEASING";
     total_episodes := Some 12;
     score := 80;
     airs_in_human := "in 2 days";
     airing_status := upcoming;
     airing_time := "07:30";
     airing_date := "2025-01-15" |}.

(** 2025-01-13T12:00:00Z, a Monday. *)
Definition example_now : Date := 1736769600000.

(** The closure of a render showing January 2025, nothing selected, in a
    UTC time zone with the clock at [example_now]. *)
Definition example_props : Props :=
  {| p_currentDate := example_now;
     p_calendarDays := default [] (calendarDays 0 example_now);
     p_weeksToFetch :=
       default [] (calendarDays 0 example_now ≫= weeksToFetch 0 example_now);
     p_selectedDate := None |}.

(** The state cells at mount, with nothing selected. *)
Definition initial_state : UIState :=
  {| scheduleData := ∅;
     loading := true;
     loadingProgress := 0;
     selectedDate := None;
     selectedAnime := [] |}.

(** 2025-03-10T12:00:00Z. *)
Definition march_10_2025 : Date := 1741608000000.

Definition episode_at (id epochSeconds : Z) : ScheduleItem :=
  {| schedule_id := id;
     airing_at := epochSeconds;
     episode := 1;
     anime_id := 1001;
     title := "Example";
     cover_image := "";
     status := "RELEASING";
     total_episodes := None;
     score := 80;
     airs_in_human := "";
     airing_status := upcoming;
     airing_time := "";
     airing_date := "" |}.

(** A schedule endpoint with two episodes in all: number 7 on Monday
    2025-03-03 (in the week before [march_10_2025]'s) and number 8 on
    Monday 2025-04-07 (four weeks after it), both at 12:00 UTC. *)
Definition march_fetch (offset : Z) : FetchResult :=
  if offset =? -1 then Resolved (Some [("MONDAY", [episode_at 7 1741003200])])
  else if offset =? 4 then Resolved (Some [("MONDAY", [episode_at 8 1744027200])])
  else Resolved (Some []).

(** The active key and the schedule ids of the entries shown after a call
    of [loadMonthSchedule] for the month of [currentDate], on
    [march_10_2025] in UTC, with [previous] selected before. *)
Definition selection_after (currentDate : Date) (previous : option string) :
    option (option string * list Z) :=
  (λ p, let st' :=
          loadMonthSchedule 0 p march_fetch march_10_2025
            {| scheduleData := ∅; loading := false; loadingProgress := 100;
               selectedDate := previous; selectedAnime := [] |} in
        (selectedDate st', schedule_id <$> selectedAnime st'))
  <$> render_props 0 march_10_2025 currentDate previous.

(** ** Vocabulary of the statements on calls in flight *)

(** The requests of round [i] that settle in a trace, in order. *)
Definition settles_for (i : nat) (trace : list Event) : list FetchResult :=
  omap (λ e, match e with
             | Settle j res _ => if decide (j = i) then Some res else None
             | Start _ _ => None
             end) trace.

(** A round resumed with each of [results] in turn; only its own
    variables are kept. *)
Definition round_after (tz : Z) (r : Round) (results : list FetchResult) : Round :=
  foldl (λ r res, (resume_round tz r res 0 initial_state).1) r results.

(** The state cells a call leaves when the last of its requests settles.
    [p] is the closure of the call, [results] what its earlier requests
    settled to, [res] what the last one settles to, [now] the clock read
    after the loop, and [st] the state cells at that moment, whatever has
    written them since the call started. *)
Definition settled_last (tz : Z) (p : Props) (results : list FetchResult)
    (res : FetchResult) (now : Date) (st : UIState) : UIState :=
  (resume_round tz
     (round_after tz (start_round tz p now initial_state).1 results)
     res now st).2.

(** The events settling all requests of a round with the closure [p], in
    the order the loop awaits them. *)
Definition settle_all (i : nat) (p : Props) (fetch : Z → FetchResult)
    (now : Date) : list Event :=
  (λ offset, Settle i (fetch offset) now) <$> p_weeksToFetch p.

(** A schedule endpoint that serves, for every week, one episode airing on
    the Monday of that week at 12:00 UTC (weeks counted from the week of
    [example_now]). *)
Definition example_fetch (offset : Z) : FetchResult :=
  Resolved (Some [("MONDAY",
    [{| schedule_id := offset;
        airing_at := 1736769600 + 604800 * offset;
        episode := 1;
        anime_id := 1001;
        title := "Example";
        cover_image := "";
        status := "RELEASING";
        total_episodes := None;
        score := 80;
        airs_in_human := "";
        airing_status := upcoming;
        airing_time := "12:00";
        airing_date := "" |}])]).

(** The component before any call of [loadMonthSchedule]. *)
Definition initial_system : System :=
  {| ui := initial_state; rounds := [] |}.

(** ** The handlers, derived values and rendering of the component *)

Section Handlers.

Import JSDate.

Variable tz : Z.

(** [d.setMonth(month)], returning the updated date. *)
Definition setMonth (d : Date) (month : Z) : Date :=
  let t := LocalTime tz d in
  UTC tz (MakeDate (MakeDay (YearFromTime t) month (DateFromTime t))
                   (TimeWithinDay t)).

(** The day and month names of [Date.prototype.toDateString]. *)
Definition weekdayName (weekday : Z) : string :=
  if weekday =? 0 then "Sun"
  else if weekday =? 1 then "Mon"
  else if weekday =? 2 then "Tue"
  else if weekday =? 3 then "Wed"
  else if weekday =? 4 then "Thu"
  else if weekday =? 5 then "Fri"
  else "Sat".

Definition monthName (month : Z) : string :=
  if month =? 0 then "Jan"
  else if month =? 1 then "Feb"
  else if month =? 2 then "Mar"
  else if month =? 3 then "Apr"
  else if month =? 4 then "May"
  else if month =? 5 then "Jun"
  else if month =? 6 then "Jul"
  else if month =? 7 then "Aug"
  else if month =? 8 then "Sep"
  else if month =? 9 then "Oct"
  else if month =? 10 then "Nov"
  else "Dec".

(** [d.toDateString()]: day name, month name, two-digit day and year
    (at least four digits, with a minus sign before a negative year) of
    the local date. *)
Definition toDateString (d : Date) : string :=
  let t := LocalTime tz d in
  let yv := YearFromTime t in
  let yearSign := if 0 <=? yv then "" else "-" in
  weekdayName (WeekDay t) +:+ " " +:+ monthName (MonthFromTime t) +:+ " "
  +:+ padStart 2 "0" (String_of_number (DateFromTime t)) +:+ " "
  +:+ yearSign +:+ padStart 4 "0" (String_of_number (Z.abs yv)).

(** All state cells of the component: the displayed date and the cells
    [loadMonthSchedule] writes. *)
Record View := {
  currentDate : Date;
  cells : UIState
}.

Definition formatDateKey (date : Date) : string := formatLocalDateKey tz date.

(** [isToday]; [now] is what [new Date()] returns. *)
Definition isToday (now date : Date) : bool :=
  String.eqb (toDateString date) (toDateString now).

Definition isCurrentMonth (v : View) (date : Date) : bool :=
  getMonth tz date =? getMonth tz (currentDate v).

Definition navigateMonth (direction : Z) (v : View) : View :=
  let newDate := currentDate v in
  let newDate := setMonth newDate (getMonth tz newDate + direction) in
  {| currentDate := newDate;
     cells := {| scheduleData := scheduleData (cells v);
                 loading := loading (cells v);
                 loadingProgress := loadingProgress (cells v);
                 selectedDate := None;
                 selectedAnime := [] |} |}.

Definition goToToday (now : Date) (v : View) : View :=
  let today := now in
  let todayStr := formatLocalDateKey tz today in
  {| currentDate := today;
     cells := {| scheduleData := scheduleData (cells v);
                 loading := loading (cells v);
                 loadingProgress := loadingProgress (cells v);
                 selectedDate := Some todayStr;
                 selectedAnime :=
                   Map_get_or_empty (scheduleData (cells v)) todayStr |} |}.

Definition handleDateClick (date : Date) (v : View) : View :=
  let dateKey := formatDateKey date in
  let anime := Map_get_or_empty (scheduleData (cells v)) dateKey in
  {| currentDate := currentDate v;
     cells := {| scheduleData := scheduleData (cells v);
                 loading := loading (cells v);
                 loadingProgress := loadingProgress (cells v);
                 selectedDate := Some dateKey;
                 selectedAnime := anime |} |}.

(** The effect on [scheduleData] and [selectedDate]:
    [if (selectedDate && scheduleData.size > 0) setSelectedAnime(...)]. *)
Definition selectedAnime_effect (st : UIState) : UIState :=
  match selectedDate st with
  | Some k =>
      if truthy (selectedDate st) && (0 <? size (scheduleData st))%nat then
        {| scheduleData := scheduleData st;
           loading := loading st;
           loadingProgress := loadingProgress st;
           selectedDate := selectedDate st;
           selectedAnime := Map_get_or_empty (scheduleData st) k |}
      else st
  | None => st
  end.

(** [totalEpisodes]: [scheduleData.forEach(items => count += items.length)]. *)
Definition totalEpisodes (scheduleData : gmap string (list ScheduleItem)) : Z :=
  map_fold (λ _ items count, count + Z.of_nat (length items)) 0 scheduleData.

(** [a.total_episodes && a.episode === a.total_episodes] *)
Definition isFinale (a : ScheduleItem) : bool :=
  match total_episodes a with
  | Some n => negb (n =? 0) && (episode a =? n)
  | None => false
  end.

(** The constants of one button of the calendar grid. *)
Record Cell := {
  dateKey : string;
  dayAnime : list ScheduleItem;
  hasAnime : bool;
  today : bool;
  currentMonth : bool;
  isSelected : bool;
  finalesCount : nat
}.

(** The callback of [calendarDays.map] in the render, up to its
    [return]. *)
Definition calendar_cell (now : Date) (v : View) (date : Date) : Cell :=
  let dateKey := formatDateKey date in
  let dayAnime := Map_get_or_empty (scheduleData (cells v)) dateKey in
  {| dateKey := dateKey;
     dayAnime := dayAnime;
     hasAnime := (0 <? length dayAnime)%nat;
     today := isToday now date;
     currentMonth := isCurrentMonth v date;
     isSelected := match selectedDate (cells v) with
                   | Some k => String.eqb k dateKey
                   | None => false
                   end;
     finalesCount := length (List.filter isFinale dayAnime) |}.

End Handlers.

(** [Array.prototype.sort] with a comparator.  The sort is stable, so for
    a comparator that orders the elements its result is the one of any
    stable sort; this is insertion from the right, which keeps an element
    before the later elements it compares equal to. *)
Fixpoint sort_insert {A} (compare : A → A → Z) (x : A) (l : list A) : list A :=
  match l with
  | [] => [x]
  | y :: l' =>
      if compare x y <=? 0 then x :: y :: l'
      else y :: sort_insert compare x l'
  end.

Definition Array_sort {A} (compare : A → A → Z) (l : list A) : list A :=
  foldr (sort_insert compare) [] l.

(** The entries of the selected-day panel, in the order shown: the value
    of [selectedAnime.sort((a, b) => a.airing_at - b.airing_at)].  The
    sort also reorders the array itself; [render_panel] below is that
    effect on the state. *)
Definition panel_items (st : UIState) : list ScheduleItem :=
  Array_sort (λ a b, airing_at a - airing_at b) (selectedAnime st).

(** What the render of the panel does to the state.  The list is rendered
    when a date is selected, [loading] is [false] and [selectedAnime] is
    not empty, and [sort] works in place: the array [selectedAnime] is
    sorted itself.  [shared] says whether that array is the very one
    [scheduleData] holds under [selectedDate], as it is when
    [selectedAnime] was read from this [scheduleData] ([handleDateClick],
    [goToToday], the commit step of [loadMonthSchedule], the effect on
    [scheduleData] and [selectedDate]); the entry of the index is then
    sorted with it. *)
Definition render_panel (shared : bool) (st : UIState) : UIState :=
  match selectedDate st, selectedAnime st with
  | Some k, _ :: _ =>
      if truthy (selectedDate st) && negb (loading st) then
        {| scheduleData :=
             if shared then <[k := panel_items st]> (scheduleData st)
             else scheduleData st;
           loading := loading st;
           loadingProgress := loadingProgress st;
           selectedDate := selectedDate st;
           selectedAnime := panel_items st |}
      else st
  | _, _ => st
  end.

(** ** The aggregation of the older revision *)

Module LegacyLoad.

(** [weekResults.forEach(...)] of the older [loadMonthSchedule], where a
    failed request has become [null] and is skipped. *)
Definition add_week (m : gmap string (list ScheduleItem)) (res : FetchResult) :
    gmap string (list ScheduleItem) :=
  match res with
  | Resolved (Some schedule) =>
      foldl (λ m entry, foldl Legacy.add_item m entry.2) m schedule
  | _ => m
  end.

(** The index the older [loadMonthSchedule] hands to [setScheduleData]. *)
Definition newScheduleData (weekResults : list FetchResult) :
    gmap string (list ScheduleItem) :=
  foldl add_week ∅ weekResults.

End LegacyLoad.

(** ** Vocabulary of the statements on the handlers *)



(** The component showing the month of [example_now], at mount. *)
Definition example_view : View :=
  {| currentDate := example_now; cells := initial_state |}.

(** ** A double click on "next"

    The scenario of the statement on calls that overlap.  The component
    is mounted on [example_now] (13 January 2025, UTC) with nothing
    selected, and the six requests of its first call settle.  The user
    then clicks "next" twice.  The second click is handled by the handler
    of the render that followed the first click; that render showed
    [loading = false], since [setLoading(true)] is called by the effect
    that runs after it, so the button was enabled. *)

(** The render after a handler has set [currentDate], and its effect on
    [weeksToFetch], which calls [loadMonthSchedule]: [v] is what the
    render shows, [calls] the calls so far. *)
Definition render_and_load (tz : Z) (clock : Date) (v : View)
    (calls : list Round) : System :=
  let s := {| ui := cells v; rounds := calls |} in
  match render_props tz clock (currentDate v) (selectedDate (cells v)) with
  | Some p => step tz s (Start p clock)
  | None => s
  end.

(** The component after its first call, for January 2025, has ended and
    the effect on [scheduleData] and [selectedDate] has run. *)
Definition idle_january : System :=
  let s := run 0 initial_system
             (Start example_props example_now
              :: settle_all 0 example_props example_fetch example_now) in
  {| ui := selectedAnime_effect (ui s); rounds := rounds s |}.

(** The state after the first click, which the next render shows, and the
    component after that render and its effect. *)
Definition first_click : View :=
  navigateMonth 0 1 {| currentDate := example_now; cells := ui idle_january |}.

Definition after_first_click : System :=
  render_and_load 0 example_now first_click (rounds idle_january).

(** The second click, handled with the [currentDate] that render showed,
    and the component after the render that follows it. *)
Definition second_click : View :=
  navigateMonth 0 1
    {| currentDate := currentDate first_click; cells := ui after_first_click |}.

Definition after_second_click : System :=
  render_and_load 0 example_now second_click (rounds after_first_click).

(** The closures of the two calls started by the clicks. *)
Definition february_props : Props :=
  default example_props
    (render_props 0 example_now (currentDate first_click)
       (selectedDate (cells first_click))).

Definition march_props : Props :=
  default example_props
    (render_props 0 example_now (currentDate second_click)
       (selectedDate (cells second_click))).

(** The requests of the call for March settle, then those of the call
    for February. *)
Definition double_click_final : System :=
  run 0 after_second_click
    (settle_all 2 march_props example_fetch example_now
     ++ settle_all 1 february_props example_fetch example_now).




(** * Properties *)

(** ** The time-value model on known dates *)

Example ymd_epoch : ymd 0 0 = (1970, 0, 1).
Proof. reflexivity. Qed.

Example ymd_2025_01_15 : ymd 0 (Date_of_epoch_seconds 1736926200) = (2025, 0, 15).
Proof. vm_compute. reflexivity. Qed.

Example ymd_2025_01_14_pacific :
  ymd (-8 * 3600000) (Date_of_epoch_seconds 1736926200) = (2025, 0, 14).
Proof. vm_compute. reflexivity. Qed.

Example ymd_leap_day : ymd 0 (Date_ymd 0 2024 1 29) = (2024, 1, 29).
Proof. vm_compute. reflexivity. Qed.

Example ymd_last_of_feb : ymd 0 (Date_ymd 0 2025 2 0) = (2025, 1, 28).
Proof. vm_compute. reflexivity. Qed.

Example ymd_dec_31_1969 : ymd 0 (-1) = (1969, 11, 31).
Proof. vm_compute. reflexivity. Qed.

Example ymd_2000_12_31 : ymd 0 (Date_ymd 0 2000 11 31) = (2000, 11, 31).
Proof. vm_compute. reflexivity. Qed.

Example ymd_month_overflow : ymd 0 (Date_ymd 0 2024 12 1) = (2025, 0, 1).
Proof. vm_compute. reflexivity. Qed.

Example getDay_2025_03_01 : getDay 0 (Date_ymd 0 2025 2 1) = 6.
Proof. vm_compute. reflexivity. Qed.
(** ** Facts about the time-value arithmetic *)

Section DateFacts.

Import JSDate.

Lemma isLeap_true_iff y :
  isLeap y = true ↔ y mod 4 = 0 ∧ (y mod 100 ≠ 0 ∨ y mod 400 = 0).
Proof.
  unfold isLeap.
  destruct (Z.eqb_spec (y mod 4) 0), (Z.eqb_spec (y mod 100) 0),
    (Z.eqb_spec (y mod 400) 0); simpl; split; intros; try lia; try done.
Qed.

Lemma DayFromYear_succ y : DayFromYear (y + 1) = DayFromYear y + DaysInYear y.
Proof.
  unfold DayFromYear, DaysInYear.
  destruct (isLeap y) eqn:E.
  - apply isLeap_true_iff in E. Z.div_mod_to_equations. lia.
  - assert (¬ (y mod 4 = 0 ∧ (y mod 100 ≠ 0 ∨ y mod 400 = 0))) as H.
    { rewrite <- isLeap_true_iff. congruence. }
    Z.div_mod_to_equations. lia.
Qed.

(** [YearFromDay] is the year ECMAScript specifies: the one whose days
    contain [d]. *)
Lemma YearFromDay_spec d :
  DayFromYear (YearFromDay d) ≤ d < DayFromYear (YearFromDay d + 1).
Proof.
  unfold YearFromDay, DayFromYear. cbv zeta.
  Z.div_mod_to_equations. lia.
Qed.

Lemma DayFromYear_mono y y' : y ≤ y' → DayFromYear y ≤ DayFromYear y'.
Proof. unfold DayFromYear. intros. Z.div_mod_to_equations. lia. Qed.

Lemma YearFromDay_unique y d :
  DayFromYear y ≤ d < DayFromYear (y + 1) → YearFromDay d = y.
Proof.
  intros H. pose proof (YearFromDay_spec d) as S.
  destruct (Z.lt_trichotomy (YearFromDay d) y) as [L|[E|G]]; [|done|].
  - pose proof (DayFromYear_mono (YearFromDay d + 1) y). lia.
  - pose proof (DayFromYear_mono (y + 1) (YearFromDay d)). lia.
Qed.

Ltac norm_month :=
  repeat match goal with
         | |- context [Z.pos ?a + 1] =>
             let v := eval vm_compute in (Z.pos a + 1) in
             change (Z.pos a + 1) with v
         | |- context [0 + 1] => change (0 + 1) with 1
         end;
  cbn.

Lemma monthOfYearDay_range leap dwy :
  0 ≤ leap ≤ 1 → 0 ≤ dwy < 365 + leap →
  0 ≤ monthOfYearDay leap dwy ≤ 11
  ∧ monthStart leap (monthOfYearDay leap dwy) ≤ dwy
       < monthStart leap (monthOfYearDay leap dwy + 1).
Proof.
  intros Hl Hd. unfold monthOfYearDay.
  repeat match goal with
         | |- context [if ?a <? ?b then _ else _] =>
             destruct (Z.ltb_spec a b); [norm_month; lia|]
         end.
  norm_month; lia.
Qed.

Lemma month_cases m :
  0 ≤ m ≤ 11 →
  m = 0 ∨ m = 1 ∨ m = 2 ∨ m = 3 ∨ m = 4 ∨ m = 5 ∨ m = 6 ∨ m = 7
  ∨ m = 8 ∨ m = 9 ∨ m = 10 ∨ m = 11.
Proof. lia. Qed.

Lemma monthOfYearDay_unique leap m dwy :
  0 ≤ leap ≤ 1 → 0 ≤ m ≤ 11 →
  monthStart leap m ≤ dwy < monthStart leap (m + 1) →
  monthOfYearDay leap dwy = m.
Proof.
  intros Hl Hm. unfold monthOfYearDay.
  destruct (month_cases m Hm)
    as [->|[->|[->|[->|[->|[->|[->|[->|[->|[->|[->| ->]]]]]]]]]]];
    norm_month; intros;
    repeat match goal with
         | |- context [if ?a <? ?b then _ else _] =>
             destruct (Z.ltb_spec a b); try lia
         end.
Qed.

Lemma leap_flag_range y : 0 ≤ (if isLeap y then 1 else 0) ≤ 1.
Proof. destruct (isLeap y); lia. Qed.

Lemma DayWithinYear_range t :
  0 ≤ DayWithinYear t < 365 + InLeapYear t.
Proof.
  unfold DayWithinYear, InLeapYear, YearFromTime.
  pose proof (YearFromDay_spec (Day t)) as S.
  rewrite DayFromYear_succ in S. unfold DaysInYear in S.
  destruct (isLeap (YearFromDay (Day t))); lia.
Qed.

Lemma MonthFromTime_range t : 0 ≤ MonthFromTime t ≤ 11.
Proof.
  unfold MonthFromTime.
  apply monthOfYearDay_range; [apply leap_flag_range | apply DayWithinYear_range].
Qed.

(** The day number of a time value, from its year, month and date. *)
Lemma MakeDay_of_time t date :
  MakeDay (YearFromTime t) (MonthFromTime t) date
  = Day t - DateFromTime t + date.
Proof.
  pose proof (MonthFromTime_range t) as Hm.
  unfold MakeDay. cbv zeta.
  rewrite (Z.div_small (MonthFromTime t) 12), (Z.mod_small (MonthFromTime t) 12)
    by lia.
  rewrite Z.add_0_r. unfold DateFromTime, DayWithinYear, InLeapYear. lia.
Qed.


Lemma daysInMonth_range y m : 28 ≤ daysInMonth y m ≤ 31.
Proof. unfold daysInMonth. repeat case_match; lia. Qed.

Lemma monthStart_succ y m :
  0 ≤ m ≤ 11 →
  monthStart (if isLeap y then 1 else 0) (m + 1)
  = monthStart (if isLeap y then 1 else 0) m + daysInMonth y m.
Proof.
  intros Hm. unfold daysInMonth.
  destruct (month_cases m Hm)
    as [->|[->|[->|[->|[->|[->|[->|[->|[->|[->|[->| ->]]]]]]]]]]];
    norm_month; destruct (isLeap y); lia.
Qed.

Lemma MakeDay_normal y m date :
  0 ≤ m ≤ 11 →
  MakeDay y m date
  = DayFromYear y + monthStart (if isLeap y then 1 else 0) m + date - 1.
Proof.
  intros Hm. unfold MakeDay. cbv zeta.
  rewrite (Z.div_small m 12), (Z.mod_small m 12) by lia.
  by rewrite Z.add_0_r.
Qed.

(** [new Date(y, m + 1, date)] is [daysInMonth y m] days after
    [new Date(y, m, date)], also across the end of the year. *)
Lemma MakeDay_next_month y m date :
  0 ≤ m ≤ 11 →
  MakeDay y (m + 1) date = MakeDay y m date + daysInMonth y m.
Proof.
  intros Hm. rewrite (MakeDay_normal y m) by done.
  destruct (decide (m = 11)) as [->|Hne].
  - unfold MakeDay. cbv zeta. change ((11 + 1) / 12) with 1.
    change ((11 + 1) mod 12) with 0. rewrite DayFromYear_succ.
    unfold DaysInYear, daysInMonth. cbn. destruct (isLeap y); lia.
  - rewrite MakeDay_normal by lia. rewrite monthStart_succ by done. lia.
Qed.

(** A time value lies in month [m] of year [y] exactly when its day number
    is one of the [daysInMonth y m] days from the first of that month. *)
Lemma in_month_iff y m t :
  0 ≤ m ≤ 11 →
  YearFromTime t = y ∧ MonthFromTime t = m
  ↔ MakeDay y m 1 ≤ Day t < MakeDay y m 1 + daysInMonth y m.
Proof.
  intros Hm. split.
  - intros [<- <-].
    pose proof (MakeDay_of_time t 1) as E.
    pose proof (monthOfYearDay_range (InLeapYear t) (DayWithinYear t)
                  (leap_flag_range _) (DayWithinYear_range t)) as (_ & R).
    fold (MonthFromTime t) in R. unfold InLeapYear in R.
    rewrite monthStart_succ in R by apply MonthFromTime_range.
    unfold DateFromTime, InLeapYear in E. lia.
  - intros H. rewrite MakeDay_normal in H by done.
    pose proof (monthStart_succ y m Hm) as Hs.
    assert (DayFromYear y ≤ Day t < DayFromYear (y + 1)) as Hy.
    { rewrite DayFromYear_succ. unfold DaysInYear.
      assert (0 ≤ monthStart (if isLeap y then 1 else 0) m
              ∧ monthStart (if isLeap y then 1 else 0) (m + 1)
                ≤ 365 + (if isLeap y then 1 else 0)) as [??].
      { destruct (month_cases m Hm)
          as [->|[->|[->|[->|[->|[->|[->|[->|[->|[->|[->| ->]]]]]]]]]]];
          norm_month; destruct (isLeap y); lia. }
      destruct (isLeap y); lia. }
    assert (YearFromTime t = y) as Ey by (by apply YearFromDay_unique).
    split; [done|]. unfold MonthFromTime, InLeapYear, DayWithinYear.
    rewrite Ey. apply monthOfYearDay_unique; [apply leap_flag_range|done|lia].
Qed.

Lemma DateFromTime_in_month y m t :
  0 ≤ m ≤ 11 →
  MakeDay y m 1 ≤ Day t < MakeDay y m 1 + daysInMonth y m →
  DateFromTime t = Day t - MakeDay y m 1 + 1.
Proof.
  intros Hm H. destruct (proj2 (in_month_iff y m t Hm) H) as [<- <-].
  rewrite MakeDay_of_time. lia.
Qed.

Lemma Day_add_days t k : Day (t + k * msPerDay) = Day t + k.
Proof. unfold Day. rewrite Z.div_add; [done | by unfold msPerDay]. Qed.

Lemma TimeWithinDay_add_days t k :
  TimeWithinDay (t + k * msPerDay) = TimeWithinDay t.
Proof. unfold TimeWithinDay. by rewrite Z.mod_add. Qed.

Lemma Day_TimeWithinDay t : Day t * msPerDay + TimeWithinDay t = t.
Proof.
  unfold Day, TimeWithinDay. pose proof (Z.div_mod t msPerDay). unfold msPerDay in *. lia.
Qed.

Lemma WeekDay_range t : 0 ≤ WeekDay t ≤ 6.
Proof. unfold WeekDay. pose proof (Z.mod_pos_bound (Day t + 4) 7). lia. Qed.

End DateFacts.

(** ** Facts about [Date] in the viewer's time zone *)

Section LocalDateFacts.

Import JSDate.

Variable tz : Z.


Lemma localDay_addDays d k : localDay tz (addDays d k) = localDay tz d + k.
Proof.
  unfold localDay, addDays, LocalTime.
  replace (d + k * msPerDay + tz) with (d + tz + k * msPerDay) by lia.
  apply Day_add_days.
Qed.

Lemma addDays_0 d : addDays d 0 = d.
Proof. unfold addDays. lia. Qed.

Lemma addDays_eq d j k : j = k → addDays d j = addDays d k.
Proof. by intros ->. Qed.

Lemma addDays_addDays d j k : addDays (addDays d j) k = addDays d (j + k).
Proof. unfold addDays. lia. Qed.

Lemma setDate_eq d date :
  setDate tz d date = addDays d (date - getDate tz d).
Proof.
  unfold setDate, getDate, addDays, UTC, MakeDate. cbv zeta.
  rewrite MakeDay_of_time.
  pose proof (Day_TimeWithinDay (LocalTime tz d)) as E.
  unfold LocalTime in *. lia.
Qed.

(** [d.setDate(d.getDate() + k)] moves [d] by [k] days. *)
Lemma setDate_getDate d k : setDate tz d (getDate tz d + k) = addDays d k.
Proof. rewrite setDate_eq. apply addDays_eq. lia. Qed.

Lemma getDay_range d : 0 ≤ getDay tz d ≤ 6.
Proof. apply WeekDay_range. Qed.

Lemma getDay_localDay d : getDay tz d = (localDay tz d + 4) mod 7.
Proof. done. Qed.

Lemma getDay_addDays d k : getDay tz (addDays d k) = (getDay tz d + k) mod 7.
Proof.
  rewrite !getDay_localDay, localDay_addDays.
  rewrite Zplus_mod_idemp_l. f_equal. lia.
Qed.

Lemma getFullYear_localDay d : getFullYear tz d = YearFromDay (localDay tz d).
Proof. done. Qed.

Lemma getMonth_range d : 0 ≤ getMonth tz d ≤ 11.
Proof. apply MonthFromTime_range. Qed.

Lemma MakeFullYear_id y : ¬ (0 ≤ y ≤ 99) → MakeFullYear y = y.
Proof.
  intros Hy. unfold MakeFullYear.
  destruct (Z.leb_spec 0 y), (Z.leb_spec y 99); cbn; lia.
Qed.

Lemma Date_ymd_localMidnight y m date :
  Date_ymd tz y m date = localMidnight tz (MakeFullYear y) m date.
Proof. done. Qed.

Lemma LocalTime_localMidnight y m date :
  LocalTime tz (localMidnight tz y m date) = MakeDay y m date * msPerDay.
Proof. unfold LocalTime, localMidnight, UTC, MakeDate. lia. Qed.

Lemma localDay_localMidnight y m date :
  localDay tz (localMidnight tz y m date) = MakeDay y m date.
Proof.
  unfold localDay. rewrite LocalTime_localMidnight. unfold Day.
  apply Z.div_mul. by unfold msPerDay.
Qed.

Lemma LocalTime_Date_ymd y m date :
  LocalTime tz (Date_ymd tz y m date)
  = MakeDay (MakeFullYear y) m date * msPerDay.
Proof. apply LocalTime_localMidnight. Qed.

Lemma localDay_Date_ymd y m date :
  localDay tz (Date_ymd tz y m date) = MakeDay (MakeFullYear y) m date.
Proof. apply localDay_localMidnight. Qed.

Lemma Date_ymd_addDays y m date k :
  addDays (Date_ymd tz y m date) k = Date_ymd tz y m (date + k).
Proof. unfold addDays, Date_ymd, UTC, MakeDate, MakeDay. lia. Qed.

(** A date shows month [m] of year [y] exactly when its local day is one
    of the days of that month. *)
Lemma same_month_iff d y m :
  0 ≤ m ≤ 11 →
  getFullYear tz d = y ∧ getMonth tz d = m
  ↔ MakeDay y m 1 ≤ localDay tz d < MakeDay y m 1 + daysInMonth y m.
Proof. apply in_month_iff. Qed.

Lemma ymd_localDay d1 d2 :
  localDay tz d1 = localDay tz d2 ↔ ymd tz d1 = ymd tz d2.
Proof.
  split.
  - intros E. unfold ymd, getFullYear, getMonth, getDate, MonthFromTime,
      DateFromTime, MonthFromTime, InLeapYear, DayWithinYear, YearFromTime.
    unfold localDay in E. by rewrite E.
  - unfold ymd. intros [= Ey Em Ed].
    pose proof (MakeDay_of_time (LocalTime tz d1) 0) as E1.
    pose proof (MakeDay_of_time (LocalTime tz d2) 0) as E2.
    unfold getFullYear, getMonth, getDate in *. unfold localDay.
    rewrite Ey, Em in E1. lia.
Qed.

End LocalDateFacts.

(** ** The week-window planner *)

Section PlannerFacts.

Import JSDate.

Variable tz : Z.


Lemma daysFrom_S start n :
  daysFrom start (S n) = daysFrom start n ++ [addDays start (Z.of_nat n)].
Proof. unfold daysFrom. by rewrite seq_S, fmap_app. Qed.

Lemma length_daysFrom start n : length (daysFrom start n) = n.
Proof. unfold daysFrom. by rewrite length_fmap, length_seq. Qed.

Lemma daysFrom_cons start n :
  daysFrom start (S n) = start :: daysFrom (addDays start 1) n.
Proof.
  unfold daysFrom. cbn [seq fmap list_fmap]. rewrite addDays_0. f_equal.
  rewrite <- fmap_S_seq, <- list_fmap_compose. apply list_fmap_ext.
  intros _ i _. cbn. rewrite addDays_addDays. f_equal. lia.
Qed.

(** The loop visits [current], [current + 1 day], ... while they do not
    exceed [endDate]; fuel beyond the number of iterations is not used. *)
Lemma calendarDays_loop_spec n : ∀ fuel current endDate days,
  (n < fuel)%nat →
  addDays current (Z.of_nat n - 1) ≤ endDate < addDays current (Z.of_nat n) →
  calendarDays_loop tz fuel current endDate days
  = Some (days ++ daysFrom current n).
Proof.
  induction n as [|n IH]; intros fuel current endDate days Hf H.
  - destruct fuel as [|fuel]; [lia|]. cbn [calendarDays_loop].
    unfold getTime. rewrite addDays_0 in H.
    destruct (Z.leb_spec current endDate); [lia|].
    by rewrite app_nil_r.
  - destruct fuel as [|fuel]; [lia|]. cbn [calendarDays_loop].
    unfold getTime, addDays in *.
    destruct (Z.leb_spec current endDate) as [_|?];
      [|unfold msPerDay in *; lia].
    rewrite setDate_getDate, IH; [|lia|unfold addDays; lia].
    by rewrite daysFrom_cons, <- app_assoc.
Qed.






Lemma lastOfMonth_eq c :
  lastOfMonth tz c = addDays (firstOfMonth tz c) (monthLength tz c - 1).
Proof.
  unfold lastOfMonth, firstOfMonth, monthLength.
  rewrite Date_ymd_addDays. unfold Date_ymd, UTC, MakeDate.
  rewrite MakeDay_next_month by apply getMonth_range.
  unfold MakeDay. lia.
Qed.

Lemma gridStart_eq c : gridStart tz c = addDays (firstOfMonth tz c) (- leadDays tz c).
Proof.
  unfold gridStart, leadDays, firstOfMonth. cbv zeta.
  rewrite setDate_eq. apply addDays_eq. lia.
Qed.

Lemma gridEnd_eq c :
  gridEnd tz c = addDays (gridStart tz c) (gridLength tz c - 1).
Proof.
  transitivity (addDays (lastOfMonth tz c) (trailDays tz c)).
  { unfold gridEnd, trailDays, lastOfMonth. cbv zeta. apply setDate_getDate. }
  rewrite gridStart_eq, lastOfMonth_eq, !addDays_addDays.
  unfold gridLength. apply addDays_eq. lia.
Qed.

Lemma leadDays_range c : 0 ≤ leadDays tz c ≤ 6.
Proof. apply getDay_range. Qed.

Lemma trailDays_range c : 0 ≤ trailDays tz c ≤ 6.
Proof. unfold trailDays. pose proof (getDay_range tz (lastOfMonth tz c)). lia. Qed.

Lemma monthLength_range c : 28 ≤ monthLength tz c ≤ 31.
Proof. apply daysInMonth_range. Qed.

Lemma gridLength_pos c : 28 ≤ gridLength tz c.
Proof.
  pose proof (leadDays_range c). pose proof (trailDays_range c).
  pose proof (monthLength_range c).
  apply (Z.le_trans _ (0 + 28 + 0)); [done|].
  apply Z.add_le_mono; [apply Z.add_le_mono|]; lia.
Qed.

(** The grid starts on a Sunday and ends on a Saturday. *)
Lemma getDay_gridStart c : getDay tz (gridStart tz c) = 0.
Proof.
  rewrite gridStart_eq, getDay_addDays. unfold leadDays.
  replace (getDay tz (firstOfMonth tz c) + - getDay tz (firstOfMonth tz c)) with 0 by lia.
  done.
Qed.

Lemma getDay_gridEnd c : getDay tz (gridEnd tz c) = 6.
Proof.
  unfold gridEnd. cbv zeta.
  rewrite setDate_getDate, getDay_addDays.
  match goal with
  | |- (?a + (6 - ?a)) mod 7 = 6 => replace (a + (6 - a)) with 6 by lia
  end.
  done.
Qed.

Lemma gridLength_weeks c : gridLength tz c mod 7 = 0.
Proof.
  pose proof (getDay_gridEnd c) as E. rewrite gridEnd_eq, getDay_addDays in E.
  rewrite getDay_gridStart in E. revert E. generalize (gridLength tz c).
  intros n E. Z.div_mod_to_equations. lia.
Qed.

Lemma whole_weeks_cases a len b :
  0 ≤ a ≤ 6 → 28 ≤ len ≤ 31 → 0 ≤ b ≤ 6 → (a + len + b) mod 7 = 0 →
  a + len + b = 28 ∨ a + len + b = 35 ∨ a + len + b = 42.
Proof. intros. Z.div_mod_to_equations. lia. Qed.

Lemma gridLength_unfold c :
  leadDays tz c + monthLength tz c + trailDays tz c = gridLength tz c.
Proof. exact (eq_refl (leadDays tz c + monthLength tz c + trailDays tz c)). Qed.

Lemma gridLength_cases c :
  gridLength tz c = 28 ∨ gridLength tz c = 35 ∨ gridLength tz c = 42.
Proof.
  rewrite <- gridLength_unfold.
  apply whole_weeks_cases;
    [apply leadDays_range | apply monthLength_range | apply trailDays_range|].
  rewrite gridLength_unfold. apply gridLength_weeks.
Qed.

Lemma calendarDays_loop_days start n :
  0 ≤ n →
  calendarDays_loop tz
    (Z.to_nat ((getTime (addDays start (n - 1)) - getTime start) / msPerDay + 2))
    start (addDays start (n - 1)) []
  = Some (daysFrom start (Z.to_nat n)).
Proof.
  intros Hn.
  rewrite (calendarDays_loop_spec (Z.to_nat n)); [done| |].
  - unfold getTime, addDays.
    replace (start + (n - 1) * msPerDay - start)
      with ((n - 1) * msPerDay) by lia.
    rewrite Z.div_mul by (by unfold msPerDay). lia.
  - rewrite Z2Nat.id by lia. unfold addDays, msPerDay. lia.
Qed.

(** [calendarDays] returns, for every displayed month, the consecutive days
    from [gridStart] to [gridEnd]. *)
Lemma calendarDays_eq c :
  calendarDays tz c = Some (daysFrom (gridStart tz c) (Z.to_nat (gridLength tz c))).
Proof.
  unfold calendarDays. cbv zeta. rewrite gridEnd_eq.
  apply calendarDays_loop_days. pose proof (gridLength_pos c). lia.
Qed.

End PlannerFacts.

(** ** Which days the fetched weeks cover *)

Section CoverageFacts.

Import JSDate.

Variable tz : Z.




Lemma atMidnight_Date_ymd y m date : atMidnight tz (Date_ymd tz y m date).
Proof. unfold atMidnight. by rewrite localDay_Date_ymd, LocalTime_Date_ymd. Qed.

Lemma atMidnight_addDays d k : atMidnight tz d → atMidnight tz (addDays d k).
Proof.
  unfold atMidnight. rewrite localDay_addDays. unfold addDays, LocalTime. lia.
Qed.

Lemma atMidnight_setHours now : atMidnight tz (setHours tz now 0 0 0 0).
Proof.
  unfold atMidnight, localDay, setHours, LocalTime, UTC, MakeDate, MakeTime.
  cbv zeta.
  replace (Day (now + tz) * msPerDay + (0 * msPerHour + 0 * msPerMinute + 0 * msPerSecond + 0) - tz + tz)
    with (Day (now + tz) * msPerDay) by lia.
  unfold Day at 2. rewrite Z.div_mul; [done | by unfold msPerDay].
Qed.

Lemma localDay_setHours now : localDay tz (setHours tz now 0 0 0 0) = localDay tz now.
Proof.
  unfold localDay, setHours, LocalTime, UTC, MakeDate, MakeTime. cbv zeta.
  replace (Day (now + tz) * msPerDay + (0 * msPerHour + 0 * msPerMinute + 0 * msPerSecond + 0) - tz + tz)
    with (Day (now + tz) * msPerDay) by lia.
  unfold Day at 1. rewrite Z.div_mul; [done | by unfold msPerDay].
Qed.

Lemma atMidnight_gridStart c : atMidnight tz (gridStart tz c).
Proof. rewrite gridStart_eq. apply atMidnight_addDays, atMidnight_Date_ymd. Qed.

Lemma daysToMonday_monday wd :
  0 ≤ wd ≤ 6 → (wd + daysToMonday wd) mod 7 = 1 ∧ -6 ≤ daysToMonday wd ≤ 0.
Proof.
  intros H. unfold daysToMonday. destruct (Z.eqb_spec wd 0) as [->|?].
  - done.
  - replace (wd + (1 - wd)) with 1 by lia. split; [done|lia].
Qed.

Lemma currentMonday_eq now :
  currentMonday tz now
  = addDays (setHours tz now 0 0 0 0)
      (daysToMonday (getDay tz (setHours tz now 0 0 0 0))).
Proof. unfold currentMonday. cbv zeta. apply setDate_getDate. Qed.

Lemma firstWeekMonday_eq d :
  firstWeekMonday tz d = addDays d (daysToMonday (getDay tz d)).
Proof. unfold firstWeekMonday. cbv zeta. apply setDate_getDate. Qed.

(** The current week's Monday is a Monday, at local midnight, among the
    seven days ending today. *)
Lemma currentMonday_spec now :
  getDay tz (currentMonday tz now) = 1
  ∧ atMidnight tz (currentMonday tz now)
  ∧ localDay tz now - 6 ≤ localDay tz (currentMonday tz now) ≤ localDay tz now.
Proof.
  rewrite currentMonday_eq.
  pose proof (daysToMonday_monday _ (getDay_range tz (setHours tz now 0 0 0 0)))
    as [E R].
  split; [by rewrite getDay_addDays|].
  split; [apply atMidnight_addDays, atMidnight_setHours|].
  rewrite localDay_addDays, localDay_setHours. lia.
Qed.

Lemma Math_round_div_weeks k : Math_round_div (k * 7 * msPerDay) msPerWeek = k.
Proof.
  unfold Math_round_div, msPerWeek, msPerDay.
  Z.div_mod_to_equations. lia.
Qed.

Lemma push_weeks_6 k : push_weeks 6 k 0 [] = [k; k + 1; k + 2; k + 3; k + 4; k + 5].
Proof. cbn. by rewrite Z.add_0_r. Qed.

Lemma daysToMonday_0 : daysToMonday 0 = -6.
Proof. reflexivity. Qed.

Lemma mondays_apart a b :
  (a + 4) mod 7 = 0 → (b + 4) mod 7 = 1 → ∃ k, a - 6 - b = k * 7.
Proof.
  intros Ha Hb. exists ((a - 6 - b) / 7). Z.div_mod_to_equations. lia.
Qed.

Lemma startOffset_eq g cm k :
  atMidnight tz g → atMidnight tz cm → localDay tz g - 6 - localDay tz cm = k * 7 →
  Math_round_div (getTime (addDays g (-6)) - getTime cm) msPerWeek = k.
Proof.
  unfold atMidnight, LocalTime. generalize (localDay tz g), (localDay tz cm).
  intros a b Hg Hcm Hk. rewrite <- (Math_round_div_weeks k). f_equal.
  unfold getTime, addDays, msPerDay in *. lia.
Qed.

(** The offsets requested for a grid that starts on the Sunday [g]: the
    six weeks from the Monday six days before [g]. *)
Lemma weeksToFetch_sunday now g rest :
  getDay tz g = 0 → atMidnight tz g →
  ∃ k, weeksToFetch tz now (g :: rest)
       = Some [k; k + 1; k + 2; k + 3; k + 4; k + 5]
     ∧ localDay tz (currentMonday tz now) + 7 * k = localDay tz g - 6.
Proof.
  intros Hg Hm. destruct (currentMonday_spec now) as (Hc & Hcm & _).
  destruct (mondays_apart (localDay tz g) (localDay tz (currentMonday tz now)))
    as [k Hk].
  { by rewrite <- getDay_localDay. }
  { by rewrite <- getDay_localDay. }
  exists k. split; [|lia].
  unfold weeksToFetch. rewrite firstWeekMonday_eq, Hg, daysToMonday_0.
  rewrite (startOffset_eq g (currentMonday tz now) k Hm Hcm Hk).
  by rewrite push_weeks_6.
Qed.

Lemma fetched_six now k d :
  fetched tz now [k; k + 1; k + 2; k + 3; k + 4; k + 5] d = true
  ↔ localDay tz (currentMonday tz now) + 7 * k ≤ localDay tz d
     < localDay tz (currentMonday tz now) + 7 * k + 42.
Proof.
  unfold fetched, in_week. cbn [existsb]. cbv zeta.
  generalize (localDay tz (currentMonday tz now)), (localDay tz d). intros m x.
  rewrite !orb_true_iff, !andb_true_iff, !Z.leb_le, !Z.ltb_lt. lia.
Qed.

(** Of the grid of the displayed month, the requested weeks cover exactly
    the first 36 days. *)
Lemma grid_day_fetched_iff now c weeks i :
  weeksToFetch tz now (daysFrom (gridStart tz c) (Z.to_nat (gridLength tz c)))
    = Some weeks →
  0 ≤ i →
  fetched tz now weeks (addDays (gridStart tz c) i) = true ↔ i < 36.
Proof.
  intros Hw Hi.
  pose proof (gridLength_pos tz c) as Hp.
  destruct (Z.to_nat (gridLength tz c)) as [|n] eqn:En; [lia|].
  rewrite daysFrom_cons in Hw.
  destruct (weeksToFetch_sunday now (gridStart tz c)
              (daysFrom (addDays (gridStart tz c) 1) n)
              (getDay_gridStart tz c) (atMidnight_gridStart c)) as (k & E & Hk).
  rewrite E in Hw. injection Hw as <-.
  rewrite fetched_six, localDay_addDays, Hk. lia.
Qed.

End CoverageFacts.

(** ** The calendar grid (claim C8) *)

Section GridClaims.

Import JSDate.

Variable tz : Z.

Lemma ymd_in_month d y m :
  0 ≤ m ≤ 11 →
  MakeDay y m 1 ≤ localDay tz d < MakeDay y m 1 + daysInMonth y m →
  ymd tz d = (y, m, localDay tz d - MakeDay y m 1 + 1).
Proof.
  intros Hm H. unfold ymd, getFullYear, getMonth, getDate, localDay in *.
  destruct (proj2 (in_month_iff y m _ Hm) H) as [Ey Em].
  by rewrite Ey, Em, (DateFromTime_in_month _ _ _ Hm H).
Qed.

Lemma ymd_localMidnight y m date :
  0 ≤ m ≤ 11 → 1 ≤ date ≤ daysInMonth y m →
  ymd tz (localMidnight tz y m date) = (y, m, date).
Proof.
  intros Hm Hd. rewrite (ymd_in_month _ y m Hm); rewrite localDay_localMidnight.
  - do 2 f_equal. unfold MakeDay. lia.
  - unfold MakeDay. lia.
Qed.

(** [new Date(y, m, date)] shows month [m] and day [date] of the year the
    constructor takes [y] for, when [date] is a day of that month. *)
Lemma ymd_Date_ymd y m date :
  0 ≤ m ≤ 11 → 1 ≤ date ≤ daysInMonth (MakeFullYear y) m →
  ymd tz (Date_ymd tz y m date) = (MakeFullYear y, m, date).
Proof. apply ymd_localMidnight. Qed.

Lemma ymd_firstOfMonth c :
  ymd tz (firstOfMonth tz c)
  = (MakeFullYear (getFullYear tz c), getMonth tz c, 1).
Proof.
  apply ymd_Date_ymd; [apply getMonth_range|].
  pose proof (daysInMonth_range (MakeFullYear (getFullYear tz c))
                (getMonth tz c)). lia.
Qed.

Lemma ymd_lastOfMonth c :
  ymd tz (lastOfMonth tz c)
  = (MakeFullYear (getFullYear tz c), getMonth tz c, monthLength tz c).
Proof.
  rewrite lastOfMonth_eq. unfold firstOfMonth. rewrite Date_ymd_addDays.
  replace (1 + (monthLength tz c - 1)) with (monthLength tz c) by lia.
  apply ymd_Date_ymd; [apply getMonth_range|].
  pose proof (monthLength_range tz c). unfold monthLength in *. lia.
Qed.

Lemma last_daysFrom start n :
  last (daysFrom start (S n)) = Some (addDays start (Z.of_nat n)).
Proof. rewrite daysFrom_S. apply last_snoc. Qed.

Lemma localMidnight_addDays_date y m date k :
  addDays (localMidnight tz y m date) k = localMidnight tz y m (date + k).
Proof. unfold addDays, localMidnight, UTC, MakeDate, MakeDay. lia. Qed.

(** Outside the years 0..99, [firstDay] and [lastDay] of [calendarDays]
    are the first and the last day of the displayed month. *)
Lemma firstOfMonth_displayed c :
  ¬ (0 ≤ getFullYear tz c ≤ 99) →
  firstOfMonth tz c = localMidnight tz (getFullYear tz c) (getMonth tz c) 1.
Proof.
  intros Hy. unfold firstOfMonth.
  by rewrite Date_ymd_localMidnight, (MakeFullYear_id _ Hy).
Qed.

Lemma lastOfMonth_displayed c :
  ¬ (0 ≤ getFullYear tz c ≤ 99) →
  lastOfMonth tz c
  = localMidnight tz (getFullYear tz c) (getMonth tz c)
      (daysInMonth (getFullYear tz c) (getMonth tz c)).
Proof.
  intros Hy. rewrite lastOfMonth_eq, (firstOfMonth_displayed c Hy).
  rewrite localMidnight_addDays_date. unfold monthLength.
  rewrite (MakeFullYear_id _ Hy).
  by replace (1 + (daysInMonth (getFullYear tz c) (getMonth tz c) - 1))
    with (daysInMonth (getFullYear tz c) (getMonth tz c)) by lia.
Qed.

(** C8, as the code has it.  In a time zone of fixed offset and for a
    displayed year outside 0..99, the grid is the sequence of consecutive
    days from the Sunday on or before the first of the displayed month to
    the Saturday on or after its last day, so a whole number of weeks: 28,
    35 or 42 cells (28 when a 28-day February starts on a Sunday). *)
Theorem calendarDays_whole_weeks c :
  ¬ (0 ≤ getFullYear tz c ≤ 99) →
  let first := localMidnight tz (getFullYear tz c) (getMonth tz c) 1 in
  let last_day :=
    localMidnight tz (getFullYear tz c) (getMonth tz c)
      (daysInMonth (getFullYear tz c) (getMonth tz c)) in
  ymd tz first = (getFullYear tz c, getMonth tz c, 1)
  ∧ ymd tz last_day
    = (getFullYear tz c, getMonth tz c,
       daysInMonth (getFullYear tz c) (getMonth tz c))
  ∧ ∃ (lead trail : Z) (n : nat),
      0 ≤ lead ≤ 6 ∧ 0 ≤ trail ≤ 6
      ∧ getDay tz (addDays first (- lead)) = 0
      ∧ getDay tz (addDays last_day trail) = 6
      ∧ calendarDays tz c = Some (daysFrom (addDays first (- lead)) n)
      ∧ last (daysFrom (addDays first (- lead)) n)
        = Some (addDays last_day trail)
      ∧ (n = 28 ∨ n = 35 ∨ n = 42)%nat.
Proof.
  intros Hy. cbv zeta.
  pose proof (daysInMonth_range (getFullYear tz c) (getMonth tz c)) as Hd.
  split; [apply ymd_localMidnight; [apply getMonth_range|lia]|].
  split; [apply ymd_localMidnight; [apply getMonth_range|lia]|].
  rewrite <- (firstOfMonth_displayed c Hy), <- (lastOfMonth_displayed c Hy).
  exists (leadDays tz c), (trailDays tz c), (Z.to_nat (gridLength tz c)).
  pose proof (gridLength_cases tz c) as Hn.
  pose proof (gridEnd_eq tz c) as He.
  assert (gridEnd tz c = addDays (lastOfMonth tz c) (trailDays tz c)) as He'.
  { unfold gridEnd, trailDays, lastOfMonth. cbv zeta. apply setDate_getDate. }
  rewrite <- gridStart_eq, <- He'.
  split; [apply leadDays_range|]. split; [apply trailDays_range|].
  split; [apply getDay_gridStart|]. split; [apply getDay_gridEnd|].
  split; [apply calendarDays_eq|]. split; [|lia].
  rewrite He.
  destruct (Z.to_nat (gridLength tz c)) as [|k] eqn:Ek; [lia|].
  rewrite last_daysFrom.
  by replace (Z.of_nat k) with (gridLength tz c - 1) by lia.
Qed.

End GridClaims.

Lemma calendarDays_whole_weeks_witness :
  ¬ (0 ≤ getFullYear 0 example_now ≤ 99)
  ∧ ∃ (lead trail : Z) (n : nat),
      0 ≤ lead ≤ 6 ∧ 0 ≤ trail ≤ 6
      ∧ getDay 0 (addDays (localMidnight 0 2025 0 1) (- lead)) = 0
      ∧ getDay 0 (addDays (localMidnight 0 2025 0 31) trail) = 6
      ∧ calendarDays 0 example_now
        = Some (daysFrom (addDays (localMidnight 0 2025 0 1) (- lead)) n)
      ∧ last (daysFrom (addDays (localMidnight 0 2025 0 1) (- lead)) n)
        = Some (addDays (localMidnight 0 2025 0 31) trail)
      ∧ (n = 28 ∨ n = 35 ∨ n = 42)%nat.
Proof.
  assert (¬ (0 ≤ getFullYear 0 example_now ≤ 99)) as Hy.
  { assert (getFullYear 0 example_now = 2025) as -> by (vm_compute; reflexivity).
    lia. }
  split; [exact Hy|].
  exact (proj2 (proj2 (calendarDays_whole_weeks 0 example_now Hy))).
Defined.

(** February 2026 starts on a Sunday and has 28 days: its grid has four
    rows, neither 35 nor 42 cells. *)
Lemma calendarDays_feb_2026_28_cells :
  ∃ grid, calendarDays 0 (Date_ymd 0 2026 1 1) = Some grid
          ∧ length grid = 28%nat
          ∧ ¬ (length grid = 35%nat ∨ length grid = 42%nat).
Proof.
  eexists. split; [vm_compute; reflexivity|]. split; [reflexivity|].
  cbn. lia.
Qed.

(** ** Coverage of the grid by the fetched weeks (claim C1) *)

Section CoverageClaims.

Import JSDate.

Variable tz : Z.

Lemma getDay_Date_ymd y m date :
  getDay tz (Date_ymd tz y m date) = (MakeDay (MakeFullYear y) m date + 4) mod 7.
Proof. by rewrite getDay_localDay, localDay_Date_ymd. Qed.

Lemma elem_of_daysFrom start n i :
  0 ≤ i < Z.of_nat n → addDays start i ∈ daysFrom start n.
Proof.
  intros Hi. unfold daysFrom. apply list_elem_of_fmap.
  exists (Z.to_nat i). split; [by rewrite Z2Nat.id by lia|].
  apply elem_of_seq. lia.
Qed.

Lemma elem_of_daysFrom_inv start n d :
  d ∈ daysFrom start n → ∃ i, d = addDays start i ∧ 0 ≤ i < Z.of_nat n.
Proof.
  unfold daysFrom. intros (i & -> & Hi)%list_elem_of_fmap.
  apply elem_of_seq in Hi. exists (Z.of_nat i). split; [done|lia].
Qed.

(** The planner returns a grid and six offsets for every displayed month
    and every clock. *)
Lemma planner_total now c :
  ∃ grid weeks,
    calendarDays tz c = Some grid ∧ weeksToFetch tz now grid = Some weeks
    ∧ length weeks = 6%nat.
Proof.
  pose proof (gridLength_pos tz c) as Hp.
  exists (daysFrom (gridStart tz c) (Z.to_nat (gridLength tz c))).
  destruct (Z.to_nat (gridLength tz c)) as [|n] eqn:En; [lia|].
  destruct (weeksToFetch_sunday tz now (gridStart tz c)
              (daysFrom (addDays (gridStart tz c) 1) n)
              (getDay_gridStart tz c) (atMidnight_gridStart tz c))
    as (k & Hw & _).
  rewrite <- daysFrom_cons in Hw. eexists. rewrite <- En.
  split; [apply calendarDays_eq|]. rewrite En. split; [exact Hw|done].
Qed.

(** The grid of every month of six rows: its last six days, Monday to
    Saturday of the sixth row, are in none of the requested weeks. *)
Lemma six_row_grid_not_covered now c grid weeks i :
  gridLength tz c = 42 →
  calendarDays tz c = Some grid → weeksToFetch tz now grid = Some weeks →
  36 ≤ i < 42 →
  addDays (gridStart tz c) i ∈ grid
  ∧ fetched tz now weeks (addDays (gridStart tz c) i) = false.
Proof.
  intros Hn Hg Hw Hi. rewrite calendarDays_eq in Hg. injection Hg as <-.
  split; [apply elem_of_daysFrom; lia|].
  apply not_true_is_false. rewrite (grid_day_fetched_iff tz now c weeks i Hw); lia.
Qed.

(** All grids of at most five rows are covered. *)
Lemma five_row_grid_covered now c grid weeks d :
  gridLength tz c ≤ 35 →
  calendarDays tz c = Some grid → weeksToFetch tz now grid = Some weeks →
  d ∈ grid → fetched tz now weeks d = true.
Proof.
  intros Hn Hg Hw Hd. rewrite calendarDays_eq in Hg. injection Hg as <-.
  apply elem_of_daysFrom_inv in Hd as (i & -> & Hi).
  apply (grid_day_fetched_iff tz now c weeks i Hw); lia.
Qed.

Lemma ymd_march_2025 : ymd tz (Date_ymd tz 2025 2 1) = (2025, 2, 1).
Proof. by apply ymd_Date_ymd. Qed.

Lemma gridStart_march_2025 :
  gridStart tz (Date_ymd tz 2025 2 1) = Date_ymd tz 2025 2 (-5).
Proof.
  pose proof ymd_march_2025 as [= Ey Em _].
  rewrite gridStart_eq. unfold leadDays, firstOfMonth.
  rewrite Ey, Em, getDay_Date_ymd, Date_ymd_addDays. done.
Qed.

Lemma gridLength_march_2025 : gridLength tz (Date_ymd tz 2025 2 1) = 42.
Proof.
  pose proof ymd_march_2025 as [= Ey Em _].
  rewrite <- gridLength_unfold.
  unfold leadDays, trailDays, monthLength, firstOfMonth, lastOfMonth.
  rewrite Ey, Em, !getDay_Date_ymd. done.
Qed.

(** C1 at the month of March 2025, whatever the viewer's time zone and the
    real-world today.  The grid runs from Sunday 23 February to Saturday
    5 April; the six requested weeks start on Monday 17 February and end
    on Sunday 30 March, so Monday 31 March, a day of the displayed month,
    is a grid day that no requested week contains. *)
Theorem weeksToFetch_march_2025_misses_march_31 now :
  ∃ grid weeks,
    calendarDays tz (Date_ymd tz 2025 2 1) = Some grid
    ∧ weeksToFetch tz now grid = Some weeks
    ∧ Date_ymd tz 2025 2 31 ∈ grid
    ∧ fetched tz now weeks (Date_ymd tz 2025 2 31) = false.
Proof.
  destruct (planner_total now (Date_ymd tz 2025 2 1)) as (grid & weeks & Hg & Hw & _).
  exists grid, weeks. split; [done|]. split; [done|].
  assert (Date_ymd tz 2025 2 31
          = addDays (gridStart tz (Date_ymd tz 2025 2 1)) 36) as ->.
  { by rewrite gridStart_march_2025, Date_ymd_addDays. }
  apply (six_row_grid_not_covered now _ _ _ 36 gridLength_march_2025 Hg Hw).
  lia.
Qed.

End CoverageClaims.

(** ** The aggregator *)

Section AggregatorFacts.

Variable tz : Z.

Lemma add_item_eq m item :
  add_item tz m item
  = <[epochToLocalDateKey tz (airing_at item) :=
        Map_get_or_empty m (epochToLocalDateKey tz (airing_at item))
        ++ [stored_entry tz item]]> m.
Proof.
  unfold add_item, stored_entry, epochToLocalDateKey, Map_has, Map_get_or_empty.
  cbv zeta.
  set (k := formatLocalDateKey tz (Date_of_epoch_seconds (airing_at item))).
  destruct (m !! k) as [l|] eqn:E.
  - rewrite bool_decide_true by eauto. cbn. by rewrite E.
  - rewrite bool_decide_false by (by intros [??]). cbn.
    by rewrite lookup_insert_eq, insert_insert_eq.
Qed.

Lemma add_item_lookup m item k :
  Map_get_or_empty (add_item tz m item) k
  = Map_get_or_empty m k
    ++ (if decide (epochToLocalDateKey tz (airing_at item) = k)
        then [stored_entry tz item] else []).
Proof.
  rewrite add_item_eq. unfold Map_get_or_empty.
  case_decide as E.
  - subst k. by rewrite lookup_insert_eq.
  - by rewrite lookup_insert_ne, app_nil_r.
Qed.

Lemma add_item_no_empty_lists m item :
  no_empty_lists m → no_empty_lists (add_item tz m item).
Proof.
  intros H k. rewrite add_item_eq.
  destruct (decide (epochToLocalDateKey tz (airing_at item) = k)) as [<-|?].
  - rewrite lookup_insert_eq. intros [= E]. by apply app_nil in E as [_ ?].
  - rewrite lookup_insert_ne by done. apply H.
Qed.

Lemma add_items_lookup items : ∀ m k,
  Map_get_or_empty (add_items tz m items) k
  = Map_get_or_empty m k
    ++ (stored_entry tz
          <$> filter (λ item, epochToLocalDateKey tz (airing_at item) = k) items).
Proof.
  unfold add_items.
  induction items as [|item items IH]; intros m k; cbn [foldl].
  - by rewrite app_nil_r.
  - rewrite IH, add_item_lookup, filter_cons. case_decide.
    + by rewrite fmap_cons, <- app_assoc.
    + by rewrite app_nil_r.
Qed.

Lemma add_items_no_empty_lists items : ∀ m,
  no_empty_lists m → no_empty_lists (add_items tz m items).
Proof.
  unfold add_items. induction items as [|item items IH]; intros m H; [done|].
  cbn [foldl]. by apply IH, add_item_no_empty_lists.
Qed.

Lemma add_items_app m l1 l2 :
  add_items tz m (l1 ++ l2) = add_items tz (add_items tz m l1) l2.
Proof. unfold add_items. apply foldl_app. Qed.

Lemma add_schedule_eq schedule : ∀ m,
  add_schedule tz m schedule = add_items tz m (schedule_items schedule).
Proof.
  unfold add_schedule, schedule_items.
  induction schedule as [|[day items] schedule IH]; intros m; [done|].
  cbn [foldl fmap list_fmap concat snd]. by rewrite IH, add_items_app.
Qed.

Lemma fetched_items_cons res results :
  fetched_items (res :: results)
  = match res with
    | Resolved (Some schedule) => schedule_items schedule
    | _ => []
    end ++ fetched_items results.
Proof. unfold fetched_items, successful_schedules. by destruct res as [|[?|]]. Qed.

(** Folding the loop body over the settled requests adds the items of the
    successful ones, in order; the others add nothing. *)
Lemma add_weeks_eq results : ∀ m,
  foldl (add_week tz) m results = add_items tz m (fetched_items results).
Proof.
  induction results as [|res results IH]; intros m; [done|].
  cbn [foldl]. rewrite IH, fetched_items_cons.
  destruct res as [|[schedule|]]; cbn [add_week app]; [done| |done].
  by rewrite add_schedule_eq, add_items_app.
Qed.

Lemma fetch_loop_eq p fetch pending : ∀ m completed st,
  (fetch_loop tz p fetch pending m completed st).1
  = foldl (add_week tz) m (fetch <$> pending).
Proof.
  induction pending as [|offset rest IH]; intros m completed st; [done|].
  cbn [fetch_loop fmap list_fmap foldl]. apply IH.
Qed.

Lemma scheduleData_commit p m now st : scheduleData (commit tz p m now st) = m.
Proof. unfold commit. cbv zeta. by repeat case_match. Qed.

(** The index a call of [loadMonthSchedule] leaves: built from the empty
    map and the items of the requests that succeeded. *)
Lemma loadMonthSchedule_scheduleData p fetch now st :
  scheduleData (loadMonthSchedule tz p fetch now st)
  = add_items tz ∅ (fetched_items (fetch <$> p_weeksToFetch p)).
Proof.
  unfold loadMonthSchedule. cbv zeta.
  pose proof (fetch_loop_eq p fetch (p_weeksToFetch p) ∅ 0 (begin_load st)) as E.
  destruct (fetch_loop tz p fetch (p_weeksToFetch p) ∅ 0 (begin_load st))
    as [m st'].
  cbn in E. subst m. cbn. by rewrite scheduleData_commit, add_weeks_eq.
Qed.

Lemma loadMonthSchedule_loading p fetch now st :
  loading (loadMonthSchedule tz p fetch now st) = false.
Proof.
  unfold loadMonthSchedule. cbv zeta.
  by destruct (fetch_loop tz p fetch (p_weeksToFetch p) ∅ 0 (begin_load st)).
Qed.

End AggregatorFacts.

(** ** Date keys *)

Section DateKeyFacts.

Import JSDate.

Lemma length_append (s t : string) :
  String.length (s +:+ t) = (String.length s + String.length t)%nat.
Proof.
  induction s as [|c s IH]; [done|].
  change (S (String.length (s +:+ t)) = S (String.length s + String.length t)).
  by rewrite IH.
Qed.

(** Two strings with suffixes of equal length are equal only if prefixes
    and suffixes are. *)
Lemma append_inj_suffix (s1 s2 t1 t2 : string) :
  String.length t1 = String.length t2 →
  s1 +:+ t1 = s2 +:+ t2 → s1 = s2 ∧ t1 = t2.
Proof.
  revert s2. induction s1 as [|c s1 IH]; intros [|c' s2] Hl H.
  - done.
  - change (t1 = String c' (s2 +:+ t2)) in H. subst t1.
    change (S (String.length (s2 +:+ t2)) = String.length t2) in Hl.
    rewrite length_append in Hl. lia.
  - change (String c (s1 +:+ t1) = t2) in H. subst t2.
    change (String.length t1 = S (String.length (s1 +:+ t1))) in Hl.
    rewrite length_append in Hl. lia.
  - change (String c (s1 +:+ t1) = String c' (s2 +:+ t2)) in H.
    injection H as -> H. destruct (IH _ Hl H) as [-> ->]. done.
Qed.

Lemma padStart_2_numeral n :
  0 ≤ n ≤ 99 →
  unpad (padStart 2 "0" (String_of_number n)) = String_of_number n
  ∧ String.length (padStart 2 "0" (String_of_number n)) = 2%nat.
Proof.
  intros Hn. replace n with (Z.of_nat (Z.to_nat n)) by lia.
  assert (Z.to_nat n < 100)%nat as Hk by lia.
  revert Hk. generalize (Z.to_nat n). intros k Hk.
  do 100 (destruct k as [|k]; [vm_compute; done|]). lia.
Qed.

Lemma padStart_2_inj a b :
  0 ≤ a ≤ 99 → 0 ≤ b ≤ 99 →
  padStart 2 "0" (String_of_number a) = padStart 2 "0" (String_of_number b) →
  a = b.
Proof.
  intros Ha Hb E.
  destruct (padStart_2_numeral a Ha) as [Ua _].
  destruct (padStart_2_numeral b Hb) as [Ub _].
  rewrite E, Ub in Ua. by apply (inj pretty) in Ua.
Qed.

Lemma DateFromTime_range t : 1 ≤ DateFromTime t ≤ 31.
Proof.
  unfold DateFromTime.
  pose proof (monthOfYearDay_range (InLeapYear t) (DayWithinYear t)
                (leap_flag_range _) (DayWithinYear_range t)) as (Hm & R).
  fold (MonthFromTime t) in Hm, R. unfold InLeapYear in *.
  rewrite monthStart_succ in R by done.
  pose proof (daysInMonth_range (YearFromTime t) (MonthFromTime t)). lia.
Qed.

Variable tz : Z.

Lemma getDate_range d : 1 ≤ getDate tz d ≤ 31.
Proof. apply DateFromTime_range. Qed.

Lemma formatLocalDateKey_eq d :
  formatLocalDateKey tz d
  = String_of_number (getFullYear tz d) +:+ month_day_suffix tz d.
Proof. done. Qed.

Lemma length_two (s : string) :
  String.length s = 2%nat → ∃ a b, s = String a (String b "").
Proof. destruct s as [|a [|b [|??]]]; cbn; try lia. eauto. Qed.

Lemma month_day_suffix_inj d1 d2 :
  month_day_suffix tz d1 = month_day_suffix tz d2 →
  getMonth tz d1 = getMonth tz d2 ∧ getDate tz d1 = getDate tz d2.
Proof.
  unfold month_day_suffix.
  pose proof (getMonth_range tz d1). pose proof (getMonth_range tz d2).
  pose proof (getDate_range d1). pose proof (getDate_range d2).
  assert (0 ≤ getMonth tz d1 + 1 ≤ 99) as M1 by lia.
  assert (0 ≤ getMonth tz d2 + 1 ≤ 99) as M2 by lia.
  assert (0 ≤ getDate tz d1 ≤ 99) as D1 by lia.
  assert (0 ≤ getDate tz d2 ≤ 99) as D2 by lia.
  pose proof (padStart_2_inj _ _ M1 M2) as Im.
  pose proof (padStart_2_inj _ _ D1 D2) as Id.
  destruct (padStart_2_numeral _ M1) as [_ (a1 & b1 & E1)%length_two].
  destruct (padStart_2_numeral _ M2) as [_ (a2 & b2 & E2)%length_two].
  destruct (padStart_2_numeral _ D1) as [_ (e1 & f1 & F1)%length_two].
  destruct (padStart_2_numeral _ D2) as [_ (e2 & f2 & F2)%length_two].
  revert Im Id E1 E2 F1 F2.
  generalize (padStart 2 "0" (String_of_number (getMonth tz d1 + 1))),
    (padStart 2 "0" (String_of_number (getMonth tz d2 + 1))),
    (padStart 2 "0" (String_of_number (getDate tz d1))),
    (padStart 2 "0" (String_of_number (getDate tz d2))).
  intros m1 m2 x1 x2 Im Id -> -> -> ->. cbn. intros [= -> -> -> ->].
  split; [specialize (Im eq_refl); lia | by apply Id].
Qed.

Lemma length_month_day_suffix d : String.length (month_day_suffix tz d) = 6%nat.
Proof.
  unfold month_day_suffix.
  pose proof (getMonth_range tz d). pose proof (getDate_range d).
  assert (0 ≤ getMonth tz d + 1 ≤ 99) as M1 by lia.
  assert (0 ≤ getDate tz d ≤ 99) as D1 by lia.
  destruct (padStart_2_numeral _ M1) as [_ L1].
  destruct (padStart_2_numeral _ D1) as [_ L2].
  revert L1 L2.
  generalize (padStart 2 "0" (String_of_number (getMonth tz d + 1))),
    (padStart 2 "0" (String_of_number (getDate tz d))).
  intros m x L1 L2. by rewrite !length_append, L1, L2.
Qed.

(** Two dates have the same key exactly when they show the same year,
    month and day in the viewer's time zone. *)
Lemma formatLocalDateKey_inj d1 d2 :
  formatLocalDateKey tz d1 = formatLocalDateKey tz d2 ↔ ymd tz d1 = ymd tz d2.
Proof.
  split.
  - rewrite !formatLocalDateKey_eq. intros E.
    apply append_inj_suffix in E as [Ey Es];
      [|by rewrite !length_month_day_suffix].
    apply (inj pretty) in Ey. apply month_day_suffix_inj in Es as [Em Ed].
    unfold ymd. by rewrite Ey, Em, Ed.
  - unfold ymd. intros [= Ey Em Ed]. rewrite !formatLocalDateKey_eq.
    unfold month_day_suffix. by rewrite Ey, Em, Ed.
Qed.

Lemma formatLocalDateKey_same_day d1 d2 :
  formatLocalDateKey tz d1 = formatLocalDateKey tz d2
  ↔ localDay tz d1 = localDay tz d2.
Proof. by rewrite formatLocalDateKey_inj, ymd_localDay. Qed.

Lemma formatLocalDateKey_nonempty d : formatLocalDateKey tz d ≠ "".
Proof.
  intros E. pose proof (f_equal String.length E) as L.
  rewrite formatLocalDateKey_eq, length_append, length_month_day_suffix in L.
  change (String.length "") with 0%nat in L. lia.
Qed.

End DateKeyFacts.

(** ** The date key format (claim C6) *)

Section DateKeyClaims.

Import JSDate.

Lemma length_pretty_N_go x s :
  (String.length s ≤ String.length (pretty_N_go x s))%nat.
Proof.
  revert s. induction (N.lt_wf_0 x) as [x _ IH]; intros s.
  assert (x = 0 ∨ 0 < x)%N as [->|?] by lia; [by rewrite pretty_N_go_0|].
  rewrite pretty_N_go_step by done.
  etrans; [|by eapply IH, N.div_lt]. cbn. lia.
Qed.





Variable tz : Z.


End DateKeyClaims.



(** The older revision on the inputs of C5 and C6: its key of a date is the
    UTC date, one day late at 23:30 on 14 January 2025 in UTC-8 and one day
    early at local midnight of 15 January in UTC+9, and its aggregation
    keeps the server's [airing_date]. *)
Example legacy_formatDateKey_shifts :
  Legacy.formatDateKey (Date_of_epoch_seconds 1736926200) = "2025-01-15"
  ∧ formatLocalDateKey (-8 * 3600000) (Date_of_epoch_seconds 1736926200)
    = "2025-01-14"
  ∧ Legacy.formatDateKey (Date_ymd (9 * 3600000) 2025 0 15) = "2025-01-14"
  ∧ formatLocalDateKey (9 * 3600000) (Date_ymd (9 * 3600000) 2025 0 15)
    = "2025-01-15".
Proof. vm_compute. done. Qed.

Example legacy_add_item_server_key :
  Legacy.add_item ∅ example_item = {[ "2025-01-15" := [example_item] ]}.
Proof.
  unfold Legacy.add_item, Map_has, Map_get_or_empty. cbv zeta.
  rewrite lookup_empty, bool_decide_false by (by intros [??]). cbn [negb].
  by rewrite lookup_insert_eq, insert_insert_eq.
Qed.


(** ** Claims about the aggregation (C3, C5, C7, C9, C10) *)

Section AggregationClaims.

Variable tz : Z.

Lemma lookup_empty_index k :
  Map_get_or_empty (∅ : gmap string (list ScheduleItem)) k = [].
Proof. unfold Map_get_or_empty. by rewrite lookup_empty. Qed.

(** The entry list a call of [loadMonthSchedule] leaves under a key: the
    stored copies of the fetched items with that local key, in fetch
    order. *)
Lemma loadMonthSchedule_lookup p fetch now st k :
  Map_get_or_empty (scheduleData (loadMonthSchedule tz p fetch now st)) k
  = stored_entry tz
      <$> filter (λ item, epochToLocalDateKey tz (airing_at item) = k)
            (fetched_items (fetch <$> p_weeksToFetch p)).
Proof.
  by rewrite loadMonthSchedule_scheduleData, add_items_lookup, lookup_empty_index.
Qed.

Lemma loadMonthSchedule_no_empty_lists p fetch now st :
  no_empty_lists (scheduleData (loadMonthSchedule tz p fetch now st)).
Proof.
  rewrite loadMonthSchedule_scheduleData. apply add_items_no_empty_lists.
  intros k. by rewrite lookup_empty.
Qed.

Lemma Legacy_add_item_lookup m item k :
  Map_get_or_empty (Legacy.add_item m item) k
  = Map_get_or_empty m k
    ++ (if decide (airing_date item = k) then [item] else []).
Proof.
  unfold Legacy.add_item, Map_has, Map_get_or_empty. cbv zeta.
  destruct (m !! airing_date item) as [l|] eqn:E.
  - rewrite bool_decide_true by eauto. cbn [negb]. rewrite E. cbn [default].
    case_decide as Ek.
    + subst k. by rewrite lookup_insert_eq, E.
    + by rewrite lookup_insert_ne, app_nil_r.
  - rewrite bool_decide_false by (by intros [??]). cbn [negb].
    rewrite lookup_insert_eq, insert_insert_eq. cbn [default].
    case_decide as Ek.
    + subst k. by rewrite lookup_insert_eq, E.
    + by rewrite lookup_insert_ne, app_nil_r.
Qed.

Lemma Legacy_add_items_lookup items : ∀ m k,
  Map_get_or_empty (foldl Legacy.add_item m items) k
  = Map_get_or_empty m k ++ filter (λ item, airing_date item = k) items.
Proof.
  induction items as [|item items IH]; intros m k; cbn [foldl].
  - by rewrite app_nil_r.
  - rewrite IH, Legacy_add_item_lookup, filter_cons. case_decide.
    + by rewrite <- app_assoc.
    + by rewrite app_nil_r.
Qed.

Lemma Legacy_add_schedule_lookup schedule : ∀ m k,
  Map_get_or_empty (foldl (λ m entry, foldl Legacy.add_item m entry.2) m schedule) k
  = Map_get_or_empty m k
    ++ filter (λ item, airing_date item = k) (schedule_items schedule).
Proof.
  induction schedule as [|[day items] schedule IH]; intros m k; cbn [foldl].
  - by rewrite app_nil_r.
  - rewrite IH, Legacy_add_items_lookup. unfold schedule_items.
    cbn [fmap list_fmap concat snd]. by rewrite filter_app, app_assoc.
Qed.

Lemma LegacyLoad_lookup weekResults : ∀ m k,
  Map_get_or_empty (foldl LegacyLoad.add_week m weekResults) k
  = Map_get_or_empty m k
    ++ filter (λ item, airing_date item = k) (fetched_items weekResults).
Proof.
  induction weekResults as [|res results IH]; intros m k; cbn [foldl].
  - by rewrite app_nil_r.
  - rewrite IH, fetched_items_cons, filter_app, app_assoc. f_equal.
    destruct res as [|[schedule|]]; cbn [LegacyLoad.add_week];
      [by rewrite app_nil_r|apply Legacy_add_schedule_lookup|by rewrite app_nil_r].
Qed.


(** C10.  Every entry stored under a key [k] is a fetched item with its
    [airing_date] replaced by [k], the key it is stored under, and its
    other fields as fetched. *)
Theorem stored_entries_stamped p fetch now st k :
  Forall
    (λ e, airing_date e = k
          ∧ ∃ item, item ∈ fetched_items (fetch <$> p_weeksToFetch p)
              ∧ e = with_airing_date item k
              ∧ schedule_id e = schedule_id item
              ∧ airing_at e = airing_at item
              ∧ episode e = episode item
              ∧ anime_id e = anime_id item
              ∧ title e = title item
              ∧ cover_image e = cover_image item
              ∧ status e = status item
              ∧ total_episodes e = total_episodes item
              ∧ score e = score item
              ∧ airs_in_human e = airs_in_human item
              ∧ airing_status e = airing_status item
              ∧ airing_time e = airing_time item)
    (Map_get_or_empty (scheduleData (loadMonthSchedule tz p fetch now st)) k).
Proof.
  rewrite loadMonthSchedule_lookup. apply Forall_fmap, Forall_forall.
  intros item [Hk Hin]%list_elem_of_filter. unfold compose, stored_entry.
  cbv beta. rewrite Hk. split; [done|]. exists item. by repeat split.
Qed.

(** C7.  Whichever requests fail (are rejected, or resolve to a body
    without [schedule]), the call completes: the index it leaves is the
    one built from the schedules of the requests that succeeded, each
    failed week adding nothing, and [loading] is [false].  When all
    requests fail the index is empty.  With the offsets -1 and 2 of
    [-1; 0; 1; 2; 3; 4] failing, the index is built from the schedules of
    the weeks 0, 1, 3 and 4. *)
Theorem partial_failure_tolerance p fetch now st :
  let st' := loadMonthSchedule tz p fetch now st in
  let results := fetch <$> p_weeksToFetch p in
  loading st' = false
  ∧ scheduleData st'
    = foldl (add_schedule tz) ∅ (successful_schedules results)
  ∧ (∀ k, Map_get_or_empty (scheduleData st') k
          = stored_entry tz
              <$> filter (λ item, epochToLocalDateKey tz (airing_at item) = k)
                    (concat (schedule_items <$> successful_schedules results)))
  ∧ (∀ rejected : Z → bool,
       scheduleData
         (loadMonthSchedule tz p
            (λ offset, if rejected offset then Rejected else Resolved None)
            now st)
       = ∅)
  ∧ (∀ schedule : Z → list (string * list ScheduleItem),
       scheduleData
         (loadMonthSchedule tz
            {| p_currentDate := p_currentDate p;
               p_calendarDays := p_calendarDays p;
               p_weeksToFetch := [-1; 0; 1; 2; 3; 4];
               p_selectedDate := p_selectedDate p |}
            (λ offset, if (offset =? -1) || (offset =? 2) then Rejected
                       else Resolved (Some (schedule offset)))
            now st)
       = foldl (add_schedule tz) ∅
           [schedule 0; schedule 1; schedule 3; schedule 4]).
Proof.
  cbv zeta. split; [apply loadMonthSchedule_loading|].
  assert (∀ l m, foldl (add_schedule tz) m l
                 = add_items tz m (concat (schedule_items <$> l))) as Hs.
  { induction l as [|s l IH]; intros m; [done|].
    cbn [foldl fmap list_fmap concat].
    by rewrite IH, add_schedule_eq, add_items_app. }
  split; [by rewrite loadMonthSchedule_scheduleData, Hs|].
  split; [apply loadMonthSchedule_lookup|].
  split.
  - intros rejected. rewrite loadMonthSchedule_scheduleData.
    assert (fetched_items
              ((λ offset, if rejected offset then Rejected else Resolved None)
               <$> p_weeksToFetch p) = []) as ->; [|done].
    induction (p_weeksToFetch p) as [|offset l IH]; [done|].
    rewrite fmap_cons, fetched_items_cons, IH. by destruct (rejected offset).
  - intros schedule. by rewrite loadMonthSchedule_scheduleData, Hs.
Qed.

(** C9.  The index a call leaves depends on the settled requests only:
    two calls for the same offsets, with the requests settling the same
    way, leave the same index, whatever state each call starts in (in
    particular whatever index was there before), whatever month,
    selection and clock.  Running the call again on the state the first
    run left leaves the same index. *)
Theorem aggregation_idempotent fetch weeks
    c1 grid1 selected1 now1 st1 c2 grid2 selected2 now2 st2 :
  let p1 := {| p_currentDate := c1; p_calendarDays := grid1;
               p_weeksToFetch := weeks; p_selectedDate := selected1 |} in
  let p2 := {| p_currentDate := c2; p_calendarDays := grid2;
               p_weeksToFetch := weeks; p_selectedDate := selected2 |} in
  scheduleData (loadMonthSchedule tz p1 fetch now1 st1)
  = scheduleData (loadMonthSchedule tz p2 fetch now2 st2)
  ∧ scheduleData
      (loadMonthSchedule tz p1 fetch now1 (loadMonthSchedule tz p1 fetch now1 st1))
    = scheduleData (loadMonthSchedule tz p1 fetch now1 st1)
  ∧ ∀ k, Map_get_or_empty (scheduleData (loadMonthSchedule tz p1 fetch now1 st1)) k
         = Map_get_or_empty (scheduleData (loadMonthSchedule tz p2 fetch now2 st2)) k.
Proof.
  cbv zeta. by rewrite !loadMonthSchedule_scheduleData.
Qed.

End AggregationClaims.

(** ** Duplicate schedule ids (claim C3) *)

Section DedupClaims.

Variable tz : Z.

Lemma count_id_app id l1 l2 :
  count_id id (l1 ++ l2) = (count_id id l1 + count_id id l2)%nat.
Proof. unfold count_id. by rewrite filter_app, length_app. Qed.

Lemma count_id_index_entries_insert id m k l :
  count_id id (index_entries (<[k := l]> m))
  = (count_id id l + count_id id (index_entries (delete k m)))%nat.
Proof.
  rewrite <- insert_delete_eq. unfold index_entries, count_id.
  rewrite map_to_list_insert by apply lookup_delete_eq.
  cbn [fmap list_fmap concat snd]. by rewrite filter_app, length_app.
Qed.

Lemma count_id_index_entries_delete id m k :
  count_id id (index_entries m)
  = (count_id id (Map_get_or_empty m k)
     + count_id id (index_entries (delete k m)))%nat.
Proof.
  unfold Map_get_or_empty. destruct (m !! k) as [l|] eqn:E.
  - rewrite <- (insert_id m k l E) at 1. apply count_id_index_entries_insert.
  - by rewrite delete_id.
Qed.

Lemma count_id_add_item id m item :
  count_id id (index_entries (add_item tz m item))
  = (count_id id (index_entries m) + count_id id [item])%nat.
Proof.
  rewrite add_item_eq, count_id_index_entries_insert, count_id_app.
  rewrite (count_id_index_entries_delete id m
             (epochToLocalDateKey tz (airing_at item))).
  assert (count_id id [stored_entry tz item] = count_id id [item]) as ->; [|lia].
  unfold count_id. rewrite !filter_cons, !filter_nil.
  change (schedule_id (stored_entry tz item)) with (schedule_id item).
  by destruct (decide (schedule_id item = id)).
Qed.

Lemma count_id_add_items id items : ∀ m,
  count_id id (index_entries (add_items tz m items))
  = (count_id id (index_entries m) + count_id id items)%nat.
Proof.
  unfold add_items. induction items as [|item items IH]; intros m.
  - cbn [foldl]. change (count_id id []) with 0%nat. lia.
  - cbn [foldl]. rewrite IH, count_id_add_item.
    change (item :: items) with ([item] ++ items). rewrite count_id_app. lia.
Qed.

(** C3, as the code has it.  The aggregation does not deduplicate: the
    index holds one entry for every occurrence of a schedule id in the
    schedules of the requests that succeeded, so an id has exactly one
    entry in the index exactly when the fetched payloads contain it
    once. *)
Theorem index_keeps_every_occurrence p fetch now st id :
  count_id id (index_entries (scheduleData (loadMonthSchedule tz p fetch now st)))
  = count_id id (fetched_items (fetch <$> p_weeksToFetch p)).
Proof.
  rewrite loadMonthSchedule_scheduleData, count_id_add_items.
  unfold index_entries. by rewrite map_to_list_empty.
Qed.

End DedupClaims.

(** Two weeks of a round both carry the entry with schedule id 42 (weeks 0
    and 1 below); the index then holds it twice, under the same key. *)
Lemma duplicate_schedule_id_kept_twice :
  let fetch := λ offset : Z,
    if (offset =? 0) || (offset =? 1)
    then Resolved (Some [("WEDNESDAY", [example_item])])
    else Resolved (Some []) in
  let index :=
    scheduleData
      (loadMonthSchedule 0 example_props fetch example_now initial_state) in
  count_id 42 (fetched_items (fetch <$> p_weeksToFetch example_props)) = 2%nat
  ∧ Map_get_or_empty index "2025-01-15"
    = [with_airing_date example_item "2025-01-15";
       with_airing_date example_item "2025-01-15"]
  ∧ count_id 42 (index_entries index) = 2%nat
  ∧ count_id 42 (index_entries index) ≠ 1%nat.
Proof. vm_compute. repeat split; lia. Qed.

(** ** The default selection (claim C4) *)

Section SelectionFacts.

Import JSDate.

Variable tz : Z.






Lemma localDay_gridStart c :
  localDay tz (gridStart tz c)
  = MakeDay (MakeFullYear (getFullYear tz c)) (getMonth tz c) 1 - leadDays tz c.
Proof.
  rewrite gridStart_eq, localDay_addDays. unfold firstOfMonth.
  rewrite localDay_Date_ymd. lia.
Qed.





Lemma same_month_in_displayed_month d c :
  same_month tz d c = in_displayed_month tz d c.
Proof.
  unfold same_month, in_displayed_month. symmetry.
  destruct (Z.eqb_spec (getMonth tz d) (getMonth tz c)),
    (Z.eqb_spec (getFullYear tz d) (getFullYear tz c)); cbn;
    (apply bool_decide_true || apply bool_decide_false); tauto.
Qed.



End SelectionFacts.

Section SelectionClaim.

Import JSDate.

Variable tz : Z.


Lemma fetch_loop_selection p fetch pending : ∀ m completed st,
  selectedDate (fetch_loop tz p fetch pending m completed st).2 = selectedDate st
  ∧ selectedAnime (fetch_loop tz p fetch pending m completed st).2
    = selectedAnime st.
Proof.
  induction pending as [|offset rest IH]; intros m completed st; [done|].
  cbn [fetch_loop]. by destruct (IH (add_week tz m (fetch offset)) (completed + 1)
    (setLoadingProgress (progress (completed + 1) p) st)) as [-> ->].
Qed.




Lemma render_props_eq clock c selected :
  ∃ weeks,
    render_props tz clock c selected
    = Some {| p_currentDate := c;
              p_calendarDays :=
                daysFrom (gridStart tz c) (Z.to_nat (gridLength tz c));
              p_weeksToFetch := weeks;
              p_selectedDate := selected |}.
Proof.
  destruct (planner_total tz clock c) as (grid & weeks & Hg & Hw & _).
  exists weeks. unfold render_props. rewrite Hg. cbn. rewrite Hw. cbn.
  rewrite calendarDays_eq in Hg. by injection Hg as <-.
Qed.

Lemma render_props_six clock c selected :
  ∃ weeks,
    length weeks = 6%nat
    ∧ render_props tz clock c selected
      = Some {| p_currentDate := c;
                p_calendarDays :=
                  daysFrom (gridStart tz c) (Z.to_nat (gridLength tz c));
                p_weeksToFetch := weeks;
                p_selectedDate := selected |}.
Proof.
  destruct (planner_total tz clock c) as (grid & weeks & Hg & Hw & Hl).
  exists weeks. split; [done|]. unfold render_props. rewrite Hg. cbn.
  rewrite Hw. cbn. rewrite calendarDays_eq in Hg. by injection Hg as <-.
Qed.

Lemma resume_round_fst_eq r res now st offset rest :
  r_pending r = offset :: rest →
  (resume_round tz r res now st).1
  = {| r_props := r_props r; r_pending := rest;
       r_newScheduleData := add_week tz (r_newScheduleData r) res;
       r_completedWeeks := r_completedWeeks r + 1 |}.
Proof. intros E. unfold resume_round. rewrite E. by destruct rest. Qed.

Lemma round_after_started results : ∀ r,
  (length results ≤ length (r_pending r))%nat →
  r_newScheduleData (round_after tz r results)
  = foldl (add_week tz) (r_newScheduleData r) results
  ∧ r_pending (round_after tz r results) = drop (length results) (r_pending r)
  ∧ r_props (round_after tz r results) = r_props r
  ∧ r_completedWeeks (round_after tz r results)
    = r_completedWeeks r + Z.of_nat (length results).
Proof.
  unfold round_after.
  induction results as [|res results IH]; intros r Hl.
  { cbn. repeat split; lia. }
  cbn [foldl length]. cbn [length] in Hl.
  destruct (r_pending r) as [|offset rest] eqn:Ep; [cbn in Hl; lia|].
  rewrite (resume_round_fst_eq r res 0 initial_state offset rest Ep).
  cbn [length] in Hl.
  destruct (IH {| r_props := r_props r; r_pending := rest;
                  r_newScheduleData := add_week tz (r_newScheduleData r) res;
                  r_completedWeeks := r_completedWeeks r + 1 |})
    as (E1 & E2 & E3 & E4); [cbn; lia|].
  cbn [r_props r_pending r_newScheduleData r_completedWeeks] in E1, E2, E3, E4.
  rewrite E1, E2, E3, E4. repeat split. lia.
Qed.

(** The last step of a call: the loop body for the last request, the
    commit step and the [finally] block, on the state cells of that
    moment. *)
Lemma settled_last_eq p results res now st :
  (length results + 1 = length (p_weeksToFetch p))%nat →
  settled_last tz p results res now st
  = finally
      (commit tz p (foldl (add_week tz) ∅ (results ++ [res])) now
         (setLoadingProgress
            (progress (Z.of_nat (length results) + 1) p) st)).
Proof.
  intros Hl. unfold settled_last.
  assert ((start_round tz p now initial_state).1
          = {| r_props := p; r_pending := p_weeksToFetch p;
               r_newScheduleData := ∅; r_completedWeeks := 0 |}) as ->.
  { unfold start_round. by destruct (p_weeksToFetch p). }
  destruct (round_after_started results
              {| r_props := p; r_pending := p_weeksToFetch p;
                 r_newScheduleData := ∅; r_completedWeeks := 0 |})
    as (Em & Ep & Er & Ec); [cbn; lia|].
  cbn [r_props r_pending r_newScheduleData r_completedWeeks] in Em, Ep, Er, Ec.
  unfold resume_round. rewrite Ep, Em, Er, Ec.
  destruct (drop (length results) (p_weeksToFetch p)) as [|o [|o' rest]] eqn:Ed.
  - apply (f_equal length) in Ed. rewrite length_drop in Ed. cbn in Ed. lia.
  - cbn [snd]. by rewrite foldl_snoc.
  - apply (f_equal length) in Ed. rewrite length_drop in Ed. cbn in Ed. lia.
Qed.



End SelectionClaim.



(** The scenarios of the spec, on 2025-03-10 in UTC with nothing selected
    before.  March 2025 displayed, no entry today, first entries on
    2025-03-03: today is chosen.  January 2030 displayed, no entries:
    the first of the month, with an empty list. *)
Example selection_today_before_first_day_with_entries :
  selection_after march_10_2025 None = Some (Some "2025-03-10", []).
Proof. vm_compute. reflexivity. Qed.

Example selection_first_of_month_when_empty :
  selection_after (Date_ymd 0 2030 0 15) None = Some (Some "2030-01-01", []).
Proof. vm_compute. reflexivity. Qed.

(** April 2025 displayed: the first day with entries, 2025-04-07. *)
Example selection_first_day_with_entries :
  selection_after (Date_ymd 0 2025 3 15) None = Some (Some "2025-04-07", [8]).
Proof. vm_compute. reflexivity. Qed.

(** A previous selection is kept when it is a key of the new index, and
    not otherwise. *)
Example selection_kept :
  selection_after march_10_2025 (Some "2025-03-03")
  = Some (Some "2025-03-03", []).
Proof. vm_compute. reflexivity. Qed.

Example selection_not_kept :
  selection_after march_10_2025 (Some "2025-03-04")
  = Some (Some "2025-03-10", []).
Proof. vm_compute. reflexivity. Qed.

(** ** Calls in flight (claim C2) *)

Section RoundClaims.

Variable tz : Z.

(** The variables of a resumed round do not depend on the clock or on the
    state cells. *)
Lemma resume_round_local r res now st now' st' :
  (resume_round tz r res now st).1 = (resume_round tz r res now' st').1.
Proof.
  unfold resume_round. destruct (r_pending r) as [|offset [|??]]; done.
Qed.

Lemma round_after_snoc r results res now st :
  round_after tz r (results ++ [res])
  = (resume_round tz (round_after tz r results) res now st).1.
Proof.
  unfold round_after. rewrite foldl_snoc. apply resume_round_local.
Qed.

Lemma settles_for_snoc i trace e :
  settles_for i (trace ++ [e])
  = settles_for i trace
    ++ match e with
       | Settle j res _ => if decide (j = i) then [res] else []
       | Start _ _ => []
       end.
Proof.
  unfold settles_for. rewrite omap_app. f_equal.
  destruct e as [|j res now]; [done|]. cbn. by destruct (decide (j = i)).
Qed.

Lemma run_snoc s trace e : run tz s (trace ++ [e]) = step tz (run tz s trace) e.
Proof. unfold run. apply foldl_snoc. Qed.

(** Whatever else happens on the event loop (other rounds starting,
    being resumed, finishing), a round in flight is where its own settled
    requests put it. *)
Lemma round_progress trace : ∀ s i r,
  rounds s !! i = Some r →
  rounds (run tz s trace) !! i = Some (round_after tz r (settles_for i trace)).
Proof.
  induction trace as [|e trace IH] using rev_ind; intros s i r Hr; [done|].
  rewrite run_snoc, settles_for_snoc. specialize (IH s i r Hr).
  destruct e as [p now|j res now]; cbn [step].
  - rewrite app_nil_r.
    destruct (start_round tz p now (ui (run tz s trace))) as [r' st'].
    cbn [rounds]. by rewrite lookup_app_l by (by eapply lookup_lt_Some).
  - destruct (rounds (run tz s trace) !! j) as [rj|] eqn:Ej.
    + destruct (resume_round tz rj res now (ui (run tz s trace)))
        as [r' st'] eqn:Er.
      cbn [rounds]. destruct (decide (j = i)) as [->|Hne].
      * rewrite IH in Ej. injection Ej as <-.
        rewrite list_lookup_insert_eq by (by eapply lookup_lt_Some).
        by rewrite (round_after_snoc _ _ _ now (ui (run tz s trace))), Er.
      * by rewrite list_lookup_insert_ne, app_nil_r.
    + destruct (decide (j = i)) as [->|Hne]; [congruence|].
      by rewrite app_nil_r.
Qed.

Lemma resume_round_fst r res now st offset rest :
  r_pending r = offset :: rest →
  (resume_round tz r res now st).1
  = {| r_props := r_props r; r_pending := rest;
       r_newScheduleData := add_week tz (r_newScheduleData r) res;
       r_completedWeeks := r_completedWeeks r + 1 |}.
Proof. intros E. unfold resume_round. rewrite E. by destruct rest. Qed.

(** The local map and the pending offsets of a round after some of its
    requests settled. *)
Lemma round_after_eq results : ∀ r,
  (length results ≤ length (r_pending r))%nat →
  r_newScheduleData (round_after tz r results)
  = foldl (add_week tz) (r_newScheduleData r) results
  ∧ r_pending (round_after tz r results) = drop (length results) (r_pending r)
  ∧ r_props (round_after tz r results) = r_props r.
Proof.
  unfold round_after.
  induction results as [|res results IH]; intros r Hl; [done|].
  cbn [foldl length]. cbn [length] in Hl.
  destruct (r_pending r) as [|offset rest] eqn:Ep; [cbn in Hl; lia|].
  rewrite (resume_round_fst r res 0 initial_state offset rest Ep).
  cbn [length] in Hl.
  destruct (IH {| r_props := r_props r; r_pending := rest;
                  r_newScheduleData := add_week tz (r_newScheduleData r) res;
                  r_completedWeeks := r_completedWeeks r + 1 |})
    as (E1 & E2 & E3); [cbn; lia|].
  cbn [r_props r_pending r_newScheduleData] in E1, E2, E3.
  by rewrite E1, E2, E3.
Qed.

(** The step that settles the last pending request of a round commits the
    round's map. *)
Lemma step_last_settle s i r offset res now :
  rounds s !! i = Some r → r_pending r = [offset] →
  scheduleData (ui (step tz s (Settle i res now)))
  = add_week tz (r_newScheduleData r) res.
Proof.
  intros Hr Hp. cbn [step]. rewrite Hr. unfold resume_round. rewrite Hp.
  cbn [ui finally scheduleData]. apply scheduleData_commit.
Qed.

(** No round is discarded: when the last request of a round settles,
    after any trace of other events since the round started (newer rounds
    starting, being resumed and settling included), the index exposed is
    the one built from the requests of that round.  So of two rounds in
    flight the one that settles last determines the index, also when it
    is the older one. *)
Lemma last_settling_round_commits s p now0 trace res now :
  p_weeksToFetch p ≠ [] →
  length (settles_for (length (rounds s)) trace ++ [res])
  = length (p_weeksToFetch p) →
  scheduleData
    (ui (run tz s (Start p now0 :: trace ++ [Settle (length (rounds s)) res now])))
  = foldl (add_week tz) ∅ (settles_for (length (rounds s)) trace ++ [res]).
Proof.
  intros Hw Hl. rewrite length_app in Hl. cbn in Hl.
  set (i := length (rounds s)) in *.
  change (Start p now0 :: trace ++ [Settle i res now])
    with ((Start p now0 :: trace) ++ [Settle i res now]).
  rewrite run_snoc.
  change (run tz s (Start p now0 :: trace))
    with (run tz (step tz s (Start p now0)) trace).
  set (r0 := {| r_props := p; r_pending := p_weeksToFetch p;
                r_newScheduleData := ∅; r_completedWeeks := 0 |}).
  assert (rounds (step tz s (Start p now0)) !! i = Some r0) as H0.
  { cbn [step]. unfold start_round. fold r0.
    destruct (p_weeksToFetch p); [done|]. cbn [rounds].
    by rewrite lookup_app_r, Nat.sub_diag. }
  pose proof (round_progress trace _ _ _ H0) as Hr.
  destruct (round_after_eq (settles_for i trace) r0) as (Em & Ep & _).
  { cbn. lia. }
  cbn [r_pending r_newScheduleData r0] in Em, Ep.
  assert (∃ offset,
            r_pending (round_after tz r0 (settles_for i trace)) = [offset])
    as [offset Ho].
  { rewrite Ep.
    destruct (drop (length (settles_for i trace)) (p_weeksToFetch p))
      as [|o [|o' rest]] eqn:Ed.
    - apply (f_equal length) in Ed. rewrite length_drop in Ed. cbn in Ed. lia.
    - eauto.
    - apply (f_equal length) in Ed. rewrite length_drop in Ed. cbn in Ed. lia. }
  rewrite (step_last_settle _ _ _ _ _ _ Hr Ho), Em. by rewrite foldl_snoc.
Qed.

End RoundClaims.

Section Uninterrupted.

Variable tz : Z.

Lemma run_cons s e trace : run tz s (e :: trace) = run tz (step tz s e) trace.
Proof. done. Qed.

Lemma run_settle_pending fetch now i : ∀ pending s r,
  rounds s !! i = Some r → r_pending r = pending → pending ≠ [] →
  ui (run tz s ((λ offset, Settle i (fetch offset) now) <$> pending))
  = finally
      (commit tz (r_props r)
         (fetch_loop tz (r_props r) fetch pending (r_newScheduleData r)
            (r_completedWeeks r) (ui s)).1
         now
         (fetch_loop tz (r_props r) fetch pending (r_newScheduleData r)
            (r_completedWeeks r) (ui s)).2).
Proof.
  induction pending as [|offset rest IH]; intros s r Hr Hp Hne; [done|].
  rewrite fmap_cons, run_cons. cbn [step]. rewrite Hr.
  unfold resume_round. rewrite Hp. destruct rest as [|offset' rest].
  - done.
  - cbn [fetch_loop].
    set (r' := {| r_props := r_props r; r_pending := offset' :: rest;
                  r_newScheduleData :=
                    add_week tz (r_newScheduleData r) (fetch offset);
                  r_completedWeeks := r_completedWeeks r + 1 |}).
    set (s' := {| ui := setLoadingProgress
                          (progress (r_completedWeeks r + 1) (r_props r)) (ui s);
                  rounds := <[i := r']> (rounds s) |}).
    rewrite (IH s' r'); [done| |done|done].
    cbn [rounds s']. apply list_lookup_insert_eq. by eapply lookup_lt_Some.
Qed.

(** A call that no other event interrupts leaves the state that
    [loadMonthSchedule] computes. *)
Lemma run_uninterrupted s p fetch now0 now :
  p_weeksToFetch p ≠ [] →
  ui (run tz s (Start p now0 :: settle_all (length (rounds s)) p fetch now))
  = loadMonthSchedule tz p fetch now (ui s).
Proof.
  intros Hw. rewrite run_cons. unfold settle_all, loadMonthSchedule.
  set (r0 := {| r_props := p; r_pending := p_weeksToFetch p;
                r_newScheduleData := ∅; r_completedWeeks := 0 |}).
  assert (step tz s (Start p now0)
          = {| ui := begin_load (ui s); rounds := rounds s ++ [r0] |}) as ->.
  { cbn [step]. unfold start_round. fold r0. by destruct (p_weeksToFetch p). }
  rewrite (run_settle_pending fetch now _ (p_weeksToFetch p) _ r0);
    [|cbn [rounds]; by rewrite lookup_app_r, Nat.sub_diag|done|done].
  cbn [ui r_props r_newScheduleData r_completedWeeks r0].
  by destruct (fetch_loop tz p fetch (p_weeksToFetch p) ∅ 0 (begin_load (ui s))).
Qed.

End Uninterrupted.

(** C2.  The code guards against calls that overlap by disabling the
    navigation buttons while [loading] is [true], and has no other guard:
    a call commits its index when its last request settles, whatever call
    is the newest.  The guard can be passed: in the scenario of the double
    click, the render after the first click shows [loading = false] while
    the state cell is already [true], the second click starts a third
    call while the second is in flight, and the call for February, whose
    requests settle last, overwrites the index of the call for March.
    The component ends up displaying March 2025 with the index of
    February: it has no entry on 3 March, a day the call for March
    fetched an episode for, and the active date key is 3 February. *)
Theorem double_click_commits_stale_round :
  loading (ui idle_january) = false
  ∧ ymd 0 (currentDate first_click) = (2025, 1, 13)
  ∧ loading (cells first_click) = false
  ∧ loading (ui after_first_click) = true
  ∧ ymd 0 (currentDate second_click) = (2025, 2, 13)
  ∧ r_props <$> rounds after_second_click
    = [example_props; february_props; march_props]
  ∧ (λ r, length (r_pending r)) <$> rounds after_second_click
    = [0; 6; 6]%nat
  ∧ p_currentDate march_props = currentDate second_click
  ∧ loading (ui double_click_final) = false
  ∧ scheduleData (ui double_click_final)
    = scheduleData
        (loadMonthSchedule 0 february_props example_fetch example_now
           initial_state)
  ∧ Map_get_or_empty (scheduleData (ui double_click_final)) "2025-03-03" = []
  ∧ schedule_id
      <$> Map_get_or_empty
            (scheduleData
               (loadMonthSchedule 0 march_props example_fetch example_now
                  initial_state))
            "2025-03-03"
    = [7]
  ∧ selectedDate (ui double_click_final) = Some "2025-02-03".
Proof. repeat apply conj; vm_compute; reflexivity. Qed.

(** * Further properties of the component *)

(** ** Month navigation *)

Section NavigationFacts.

Import JSDate.

Variable tz : Z.

Lemma MakeDay_normalize y month date :
  MakeDay y month date = MakeDay (y + month / 12) (month mod 12) date.
Proof.
  unfold MakeDay. cbv zeta.
  rewrite Z.mod_mod by done.
  rewrite (Z.div_small (month mod 12) 12) by (apply Z.mod_pos_bound; lia).
  by rewrite Z.add_0_r.
Qed.









End NavigationFacts.

Section NavigationClaims.

Import JSDate.

Variable tz : Z.








End NavigationClaims.


(** From 31 January, "next" shows March: February has no 31st.  From
    31 March, "previous" stays in March. *)
Example navigateMonth_skips_february :
  ymd 0 (currentDate (navigateMonth 0 1
           {| currentDate := Date_ymd 0 2025 0 31; cells := initial_state |}))
  = (2025, 2, 3)
  ∧ ymd 0 (currentDate (navigateMonth 0 (-1)
             {| currentDate := Date_ymd 0 2025 2 31; cells := initial_state |}))
    = (2025, 2, 3).
Proof. vm_compute. done. Qed.

(** ** Selection after the handlers *)

Section SelectionAfterHandlers.

Import JSDate.

Variable tz : Z.




(** X4.  [goToToday] selects today's key and displays today's month.
    When the last request of the call of [loadMonthSchedule] started by
    that render settles, the active date key is today's, provided the
    clock is still on the local day of the click and the selection is
    still the one the click made (the panel has not been closed
    meanwhile): the call either keeps it or selects today again. *)
Theorem goToToday_then_load_selects_today v clock r1 r2 r3 r4 r5 res now now' st :
  localDay tz now' = localDay tz now →
  selectedDate st = selectedDate (cells (goToToday tz now v)) →
  ∃ p,
    render_props tz clock (currentDate (goToToday tz now v))
      (selectedDate (cells (goToToday tz now v))) = Some p
    ∧ selectedDate (settled_last tz p [r1; r2; r3; r4; r5] res now' st)
      = Some (formatLocalDateKey tz now).
Proof.
  intros Eday Es.
  change (selectedDate (cells (goToToday tz now v)))
    with (Some (formatLocalDateKey tz now)) in *.
  change (currentDate (goToToday tz now v)) with now.
  destruct (render_props_six tz clock now (Some (formatLocalDateKey tz now)))
    as (weeks & Hl & ->).
  eexists. split; [done|].
  rewrite settled_last_eq by (cbn; lia).
  cbn [finally selectedDate]. unfold commit. cbv zeta.
  cbn [p_currentDate p_selectedDate].
  assert (same_month tz now' now = true) as ->.
  { rewrite same_month_in_displayed_month. apply bool_decide_true.
    apply ymd_localDay in Eday. unfold ymd in Eday.
    by injection Eday as -> -> _. }
  destruct (negb _ || negb _); cbn [selectedDate setLoadingProgress].
  - f_equal. by apply formatLocalDateKey_same_day.
  - done.
Qed.

Lemma size_pos_of_has_selected (index : gmap string (list ScheduleItem)) s :
  has_selected index s = true → (0 <? size index)%nat = true.
Proof.
  destruct s as [k|]; [|done]. unfold has_selected, Map_has.
  intros [l E]%bool_decide_eq_true. apply Nat.ltb_lt.
  destruct (decide (size index = 0%nat)) as [E0|]; [|lia].
  apply map_size_empty_inv in E0. subst index. by rewrite lookup_empty in E.
Qed.

Lemma selectedAnime_effect_selected st k anime :
  selectedDate st = Some k →
  selectedAnime st = anime →
  anime = Map_get_or_empty (scheduleData st) k →
  selectedAnime (selectedAnime_effect st)
  = Map_get_or_empty (scheduleData (selectedAnime_effect st)) k
  ∧ selectedDate (selectedAnime_effect st) = Some k.
Proof.
  intros Ed Ea E. unfold selectedAnime_effect. rewrite Ed.
  destruct (_ && _); cbn [selectedAnime scheduleData selectedDate];
    [done|]. by rewrite Ea.
Qed.

(** The commit step, the [finally] block and then the effect on
    [scheduleData] and [selectedDate]: whenever a date key is selected
    after them, the selected entries are the entries of the index under
    it. *)
Lemma commit_effect_synchronised p index now st :
  truthy (selectedDate (selectedAnime_effect (finally (commit tz p index now st))))
  = false
  ∨ selectedAnime (selectedAnime_effect (finally (commit tz p index now st)))
    = Map_get_or_empty
        (scheduleData (selectedAnime_effect (finally (commit tz p index now st))))
        (default ""
           (selectedDate
              (selectedAnime_effect (finally (commit tz p index now st))))).
Proof.
  unfold commit. cbv zeta.
  destruct (negb (truthy (p_selectedDate p))
            || negb (has_selected index (p_selectedDate p))) eqn:Ec.
  - right.
    assert (∀ k anime,
              anime = Map_get_or_empty index k
              ∨ (anime = [] ∧ (0 <? size index)%nat = true ∧ k ≠ "")
              ∨ (anime = [] ∧ index = ∅) →
              let st1 := finally
                          {| scheduleData := index; loading := loading st;
                             loadingProgress := loadingProgress st;
                             selectedDate := Some k; selectedAnime := anime |} in
              selectedAnime (selectedAnime_effect st1)
              = Map_get_or_empty (scheduleData (selectedAnime_effect st1))
                  (default "" (selectedDate (selectedAnime_effect st1)))) as H.
    { intros k anime Ha. cbv zeta. unfold selectedAnime_effect, finally.
      cbn [selectedDate scheduleData selectedAnime loading loadingProgress].
      destruct Ha as [->|[(-> & Hs & Hk)|(-> & ->)]].
      - by destruct (_ && _).
      - unfold truthy. rewrite Hs.
        by destruct (String.eqb_spec k "") as [?|_].
      - destruct (_ && _); cbn [selectedAnime scheduleData selectedDate default];
          by rewrite lookup_empty_index. }
    destruct (same_month tz now (p_currentDate p)); [apply H; by left|].
    destruct (List.find _ _) as [d|]; [apply H; by left|].
    apply H. destruct (decide (size index = 0%nat)) as [E0|Hn].
    + right. right. split; [done|]. by apply map_size_empty_inv.
    + right. left. split; [done|]. split; [apply Nat.ltb_lt; lia|].
      apply formatLocalDateKey_nonempty.
  - apply orb_false_iff in Ec as [Et Eh].
    apply negb_false_iff in Et, Eh. apply size_pos_of_has_selected in Eh.
    unfold selectedAnime_effect, finally.
    cbn [selectedDate scheduleData selectedAnime loading loadingProgress].
    destruct (selectedDate st) as [k|] eqn:Es; [|by left].
    rewrite Eh, andb_true_r.
    destruct (truthy (Some k)) eqn:Ek; [by right|by left].
Qed.

(** X5.  When the last request of a call of [loadMonthSchedule] has
    settled and the effect on [scheduleData] and [selectedDate] has run,
    the panel is in step with the new index: if a date key is selected
    (the panel is shown exactly then), the selected entries are the
    entries of the index under that key.  This holds whichever rule made
    the selection, also when the call kept the previous selection and
    wrote no entries, and whatever the state cells held when the call
    ended (a selection changed or cleared while it was in flight). *)
Theorem selection_synchronised_after_load clock c previous
    r1 r2 r3 r4 r5 res now st :
  ∃ p,
    render_props tz clock c previous = Some p
    ∧ (truthy
         (selectedDate
            (selectedAnime_effect
               (settled_last tz p [r1; r2; r3; r4; r5] res now st))) = false
       ∨ selectedAnime
           (selectedAnime_effect
              (settled_last tz p [r1; r2; r3; r4; r5] res now st))
         = Map_get_or_empty
             (scheduleData
                (selectedAnime_effect
                   (settled_last tz p [r1; r2; r3; r4; r5] res now st)))
             (default ""
                (selectedDate
                   (selectedAnime_effect
                      (settled_last tz p [r1; r2; r3; r4; r5] res now st))))).
Proof.
  destruct (render_props_six tz clock c previous) as (weeks & Hl & ->).
  eexists. split; [done|].
  rewrite settled_last_eq by (cbn; lia).
  apply commit_effect_synchronised.
Qed.

End SelectionAfterHandlers.


Lemma goToToday_then_load_selects_today_witness :
  localDay 0 (example_now + 3000) = localDay 0 example_now
  ∧ selectedDate (cells (goToToday 0 example_now example_view))
    = selectedDate (cells (goToToday 0 example_now example_view))
  ∧ ∃ p,
      render_props 0 example_now (currentDate (goToToday 0 example_now example_view))
        (selectedDate (cells (goToToday 0 example_now example_view))) = Some p
      ∧ selectedDate
          (settled_last 0 p
             [example_fetch (-3); example_fetch (-2); example_fetch (-1);
              example_fetch 0; example_fetch 1]
             (example_fetch 2) (example_now + 3000)
             (cells (goToToday 0 example_now example_view)))
        = Some (formatLocalDateKey 0 example_now).
Proof.
  assert (localDay 0 (example_now + 3000) = localDay 0 example_now) as H
    by (vm_compute; reflexivity).
  split; [exact H|]. split; [reflexivity|].
  exact (goToToday_then_load_selects_today 0 example_view example_now
           (example_fetch (-3)) (example_fetch (-2)) (example_fetch (-1))
           (example_fetch 0) (example_fetch 1) (example_fetch 2)
           example_now (example_now + 3000)
           (cells (goToToday 0 example_now example_view)) H eq_refl).
Defined.

(** ** The cells of the grid and a click on one *)

Section CellFacts.

Variable tz : Z.

Lemma isFinale_stored_entry item : isFinale (stored_entry tz item) = isFinale item.
Proof. done. Qed.

Lemma List_filter_fmap {A B} (f : B → bool) (g : A → B) (l : list A) :
  List.filter f (g <$> l) = g <$> List.filter (λ a, f (g a)) l.
Proof.
  induction l as [|a l IH]; [done|]. cbn. destruct (f (g a)); cbn; by rewrite IH.
Qed.

(** The entries under the key of a date, after a call of
    [loadMonthSchedule]: the stored copies of the fetched items that air
    on the local day of the date. *)
Lemma loadMonthSchedule_lookup_day p fetch now st date :
  Map_get_or_empty (scheduleData (loadMonthSchedule tz p fetch now st))
    (formatLocalDateKey tz date)
  = stored_entry tz
      <$> filter (λ item, localDay tz (Date_of_epoch_seconds (airing_at item))
                          = localDay tz date)
            (fetched_items (fetch <$> p_weeksToFetch p)).
Proof.
  rewrite loadMonthSchedule_lookup. f_equal. apply list_filter_iff.
  intros item. unfold epochToLocalDateKey. apply formatLocalDateKey_same_day.
Qed.

(** X6.  What a cell of the grid shows once a call of [loadMonthSchedule] has
    ended: its entries are the stored copies of the fetched items that air
    on the cell's local day, it is marked as having entries exactly when
    there is such an item, and its count of finales is the number of
    those items whose episode is the last one.  The entries are stated up
    to their order, which the sort of the panel changes in the array it
    shares with the index. *)
Theorem cell_shows_items_of_its_local_day now c p fetch now' st date :
  dayAnime (calendar_cell tz now
              {| currentDate := c; cells := loadMonthSchedule tz p fetch now' st |}
              date)
  ≡ₚ stored_entry tz
       <$> filter (λ item, localDay tz (Date_of_epoch_seconds (airing_at item))
                           = localDay tz date)
             (fetched_items (fetch <$> p_weeksToFetch p))
  ∧ (hasAnime (calendar_cell tz now
                 {| currentDate := c; cells := loadMonthSchedule tz p fetch now' st |}
                 date) = true
     ↔ ∃ item, item ∈ fetched_items (fetch <$> p_weeksToFetch p)
               ∧ localDay tz (Date_of_epoch_seconds (airing_at item))
                 = localDay tz date)
  ∧ finalesCount (calendar_cell tz now
                    {| currentDate := c;
                       cells := loadMonthSchedule tz p fetch now' st |}
                    date)
    = length
        (List.filter isFinale
           (filter (λ item, localDay tz (Date_of_epoch_seconds (airing_at item))
                            = localDay tz date)
              (fetched_items (fetch <$> p_weeksToFetch p)))).
Proof.
  unfold calendar_cell, formatDateKey. cbv zeta.
  cbn [dayAnime hasAnime finalesCount cells].
  rewrite loadMonthSchedule_lookup_day.
  generalize (fetched_items (fetch <$> p_weeksToFetch p)). intros items.
  split; [done|]. split.
  - rewrite Nat.ltb_lt, length_fmap. split.
    + intros Hl.
      destruct (filter _ items) as [|item l] eqn:E; [cbn in Hl; lia|].
      assert (item ∈ filter
                (λ item, localDay tz (Date_of_epoch_seconds (airing_at item))
                         = localDay tz date) items) as Hin
        by (rewrite E; left).
      apply list_elem_of_filter in Hin as [Hd Hin]. eauto.
    + intros (item & Hin & Hd).
      assert (item ∈ filter
                (λ item, localDay tz (Date_of_epoch_seconds (airing_at item))
                         = localDay tz date) items) as Hf
        by (by apply list_elem_of_filter).
      destruct (filter _ items); [by apply elem_of_nil in Hf|cbn; lia].
  - rewrite List_filter_fmap, length_fmap. done.
Qed.

(** X7.  A click on a cell selects the key of the cell and the entries the
    cell shows; afterwards, the cells marked as selected are those of the
    local day of the cell clicked, and no cell shows other entries than
    before. *)
Theorem handleDateClick_selects_cell now v date date' :
  selectedDate (cells (handleDateClick tz date v))
  = Some (dateKey (calendar_cell tz now v date))
  ∧ selectedAnime (cells (handleDateClick tz date v))
    = dayAnime (calendar_cell tz now v date)
  ∧ (isSelected (calendar_cell tz now (handleDateClick tz date v) date') = true
     ↔ localDay tz date' = localDay tz date)
  ∧ dayAnime (calendar_cell tz now (handleDateClick tz date v) date')
    = dayAnime (calendar_cell tz now v date').
Proof.
  split; [done|]. split; [done|]. split; [|done].
  unfold calendar_cell, handleDateClick, formatDateKey. cbv zeta.
  cbn [isSelected cells selectedDate].
  rewrite String.eqb_eq, formatLocalDateKey_same_day. split; congruence.
Qed.

End CellFacts.

(** ** The episode count of the header *)

Section TotalFacts.

Variable tz : Z.

Lemma totalEpisodes_insert (m : gmap string (list ScheduleItem)) k l :
  totalEpisodes (<[k := l]> m)
  = totalEpisodes (delete k m) + Z.of_nat (length l).
Proof.
  rewrite <- insert_delete_eq. unfold totalEpisodes.
  rewrite map_fold_insert_L; [done| |apply lookup_delete_eq].
  intros. lia.
Qed.

Lemma totalEpisodes_delete (m : gmap string (list ScheduleItem)) k :
  totalEpisodes m
  = totalEpisodes (delete k m) + Z.of_nat (length (Map_get_or_empty m k)).
Proof.
  unfold Map_get_or_empty. destruct (m !! k) as [l|] eqn:E; cbn [default].
  - rewrite <- (insert_id m k l E) at 1. apply totalEpisodes_insert.
  - rewrite delete_id by done. cbn. lia.
Qed.

Lemma totalEpisodes_add_item m item :
  totalEpisodes (add_item tz m item) = totalEpisodes m + 1.
Proof.
  rewrite add_item_eq, totalEpisodes_insert, length_app.
  rewrite (totalEpisodes_delete m (epochToLocalDateKey tz (airing_at item))).
  cbn [length]. lia.
Qed.

Lemma totalEpisodes_add_items items : ∀ m,
  totalEpisodes (add_items tz m items)
  = totalEpisodes m + Z.of_nat (length items).
Proof.
  unfold add_items. induction items as [|item items IH]; intros m; cbn [foldl].
  - cbn. lia.
  - rewrite IH, totalEpisodes_add_item. cbn [length]. lia.
Qed.

(** X8.  The episode count in the header after a call of [loadMonthSchedule]
    is the number of items in the schedules of the requests that
    succeeded: every fetched item is counted, as often as it was
    fetched. *)
Theorem totalEpisodes_counts_fetched_items p fetch now st :
  totalEpisodes (scheduleData (loadMonthSchedule tz p fetch now st))
  = Z.of_nat (length (fetched_items (fetch <$> p_weeksToFetch p))).
Proof.
  rewrite loadMonthSchedule_scheduleData, totalEpisodes_add_items.
  unfold totalEpisodes. by rewrite map_fold_empty.
Qed.

End TotalFacts.

(** ** The days of the grid *)

Section GridCellFacts.

Import JSDate.

Variable tz : Z.

(** Where the local days of the grid lie, relative to the first day of
    the month the grid is computed for. *)
Lemma localDay_grid_day c i :
  0 ≤ i < gridLength tz c →
  MakeDay (MakeFullYear (getFullYear tz c)) (getMonth tz c) 1 - 6
  ≤ localDay tz (addDays (gridStart tz c) i)
  < MakeDay (MakeFullYear (getFullYear tz c)) (getMonth tz c) 1
    + monthLength tz c + 6.
Proof.
  rewrite <- gridLength_unfold, localDay_addDays, localDay_gridStart.
  pose proof (leadDays_range tz c) as Hl. pose proof (trailDays_range tz c) as Ht.
  revert Hl Ht.
  generalize (leadDays tz c), (trailDays tz c), (monthLength tz c).
  generalize (MakeDay (MakeFullYear (getFullYear tz c)) (getMonth tz c) 1). lia.
Qed.

Lemma MakeDay_previous_month y m :
  0 ≤ m ≤ 11 →
  MakeDay (y + (m - 1) / 12) ((m - 1) mod 12) 1
  + daysInMonth (y + (m - 1) / 12) ((m - 1) mod 12)
  = MakeDay y m 1.
Proof.
  intros Hm.
  rewrite <- MakeDay_next_month
    by (pose proof (Z.mod_pos_bound (m - 1) 12); lia).
  rewrite (MakeDay_normalize _ ((m - 1) mod 12 + 1)).
  assert (((m - 1) mod 12 + 1) / 12 = - ((m - 1) / 12)) as ->
    by (Z.div_mod_to_equations; lia).
  assert (((m - 1) mod 12 + 1) mod 12 = m) as ->
    by (Z.div_mod_to_equations; lia).
  by replace (y + (m - 1) / 12 + - ((m - 1) / 12)) with y by lia.
Qed.

(** Within four weeks of month [m] of year [y], only the days of that
    month have the month number [m]. *)
Lemma month_number_near d y m :
  0 ≤ m ≤ 11 →
  MakeDay y m 1 - 28 ≤ localDay tz d < MakeDay y m 1 + daysInMonth y m + 28 →
  getMonth tz d = m →
  getFullYear tz d = y.
Proof.
  intros Hm Hd Em.
  destruct (decide (localDay tz d < MakeDay y m 1)) as [Hlt|Hge].
  - pose proof (MakeDay_previous_month y m Hm) as E.
    pose proof (daysInMonth_range (y + (m - 1) / 12) ((m - 1) mod 12)) as Hr.
    assert (0 ≤ (m - 1) mod 12 ≤ 11) as Hm'
      by (pose proof (Z.mod_pos_bound (m - 1) 12); lia).
    destruct (proj2 (same_month_iff tz d (y + (m - 1) / 12) ((m - 1) mod 12) Hm'))
      as [_ Em']; [lia|].
    exfalso. rewrite Em in Em'. revert Em'. clear -Hm. Z.div_mod_to_equations. lia.
  - destruct (decide (localDay tz d < MakeDay y m 1 + daysInMonth y m))
      as [Hin|Hout].
    + by destruct (proj2 (same_month_iff tz d y m Hm)) as [Ey _]; [lia|].
    + pose proof (MakeDay_next_month y m 1 Hm) as E.
      rewrite MakeDay_normalize in E.
      pose proof (daysInMonth_range (y + (m + 1) / 12) ((m + 1) mod 12)) as Hr.
      assert (0 ≤ (m + 1) mod 12 ≤ 11) as Hm'
        by (pose proof (Z.mod_pos_bound (m + 1) 12); lia).
      destruct (proj2 (same_month_iff tz d (y + (m + 1) / 12) ((m + 1) mod 12) Hm'))
        as [_ Em']; [lia|].
      exfalso. rewrite Em in Em'. revert Em'. clear -Hm. Z.div_mod_to_equations. lia.
Qed.

Lemma isCurrentMonth_grid_day v i :
  ¬ (0 ≤ getFullYear tz (currentDate v) ≤ 99) →
  0 ≤ i < gridLength tz (currentDate v) →
  isCurrentMonth tz v (addDays (gridStart tz (currentDate v)) i)
  = same_month tz (addDays (gridStart tz (currentDate v)) i) (currentDate v).
Proof.
  intros Hy%MakeFullYear_id Hi. apply localDay_grid_day in Hi.
  unfold monthLength in Hi. rewrite Hy in Hi.
  unfold isCurrentMonth, same_month. revert Hi.
  generalize (addDays (gridStart tz (currentDate v)) i). intros d Hi.
  destruct (Z.eqb_spec (getMonth tz d) (getMonth tz (currentDate v))) as [Em|Em];
    [|done].
  rewrite (month_number_near d (getFullYear tz (currentDate v))
             (getMonth tz (currentDate v)) (getMonth_range tz (currentDate v)));
    [by rewrite Z.eqb_refl|lia|done].
Qed.

(** X9.  [isCurrentMonth] compares the month numbers only, not the years.
    For a displayed year outside 0..99 this is enough on the days of the
    grid: a cell is styled as a day of the displayed month exactly when
    its date has the month and the year of the displayed date.  (For a
    displayed year 0..99 the grid is the one of the month in 1900..1999,
    whose days have another year.) *)
Theorem isCurrentMonth_on_grid v :
  ¬ (0 ≤ getFullYear tz (currentDate v) ≤ 99) →
  ∃ grid,
    calendarDays tz (currentDate v) = Some grid
    ∧ isCurrentMonth tz v <$> grid
      = (λ d, same_month tz d (currentDate v)) <$> grid.
Proof.
  intros Hy. eexists. split; [apply calendarDays_eq|].
  apply list_eq_Forall2, Forall2_fmap, Forall_Forall2_diag, Forall_forall.
  intros d (i & -> & Hi)%elem_of_daysFrom_inv.
  apply (isCurrentMonth_grid_day _ _ Hy).
  pose proof (gridLength_pos tz (currentDate v)). lia.
Qed.

Lemma NoDup_date_keys start n :
  NoDup (formatLocalDateKey tz <$> daysFrom start n).
Proof.
  unfold daysFrom. rewrite <- list_fmap_compose.
  apply NoDup_fmap_2; [|apply NoDup_seq].
  intros i j E. unfold compose in E.
  apply formatLocalDateKey_same_day in E. rewrite !localDay_addDays in E. lia.
Qed.

Lemma dateKey_calendar_cell now v (l : list Date) :
  dateKey <$> (calendar_cell tz now v <$> l) = formatLocalDateKey tz <$> l.
Proof. rewrite <- list_fmap_compose. by apply list_fmap_ext. Qed.

(** X10.  The cells of the grid have pairwise distinct date keys, so a key
    of the index belongs to at most one cell and at most one cell is
    marked as selected. *)
Theorem grid_date_keys_distinct now v :
  ∃ grid,
    calendarDays tz (currentDate v) = Some grid
    ∧ NoDup (dateKey <$> (calendar_cell tz now v <$> grid)).
Proof.
  eexists. split; [apply calendarDays_eq|].
  rewrite dateKey_calendar_cell. apply NoDup_date_keys.
Qed.

End GridCellFacts.

Lemma isCurrentMonth_on_grid_witness :
  ¬ (0 ≤ getFullYear 0 (currentDate example_view) ≤ 99)
  ∧ ∃ grid,
      calendarDays 0 (currentDate example_view) = Some grid
      ∧ isCurrentMonth 0 example_view <$> grid
        = (λ d, same_month 0 d (currentDate example_view)) <$> grid.
Proof.
  assert (¬ (0 ≤ getFullYear 0 (currentDate example_view) ≤ 99)) as Hy.
  { assert (getFullYear 0 (currentDate example_view) = 2025) as ->
      by (vm_compute; reflexivity).
    lia. }
  split; [exact Hy|]. exact (isCurrentMonth_on_grid 0 example_view Hy).
Defined.

(** ** The order of the panel *)

Section PanelFacts.

Context {A : Type} (key : A → Z).

Lemma sort_insert_perm x (l : list A) :
  sort_insert (λ a b, key a - key b) x l ≡ₚ x :: l.
Proof.
  induction l as [|y l IH]; [done|]. cbn.
  destruct (key x - key y <=? 0); [done|].
  rewrite IH. apply Permutation_swap.
Qed.

Lemma Array_sort_perm (l : list A) : Array_sort (λ a b, key a - key b) l ≡ₚ l.
Proof.
  induction l as [|x l IH]; [done|].
  unfold Array_sort in *. cbn [foldr]. by rewrite sort_insert_perm, IH.
Qed.

Lemma sort_insert_sorted x (l : list A) :
  StronglySorted (λ a b, key a ≤ key b) l →
  StronglySorted (λ a b, key a ≤ key b) (sort_insert (λ a b, key a - key b) x l).
Proof.
  induction 1 as [|y l Hs IH Hy]; cbn.
  - repeat constructor.
  - destruct (Z.leb_spec (key x - key y) 0) as [Hle|Hgt].
    + constructor; [by constructor|]. constructor; [lia|].
      eapply Forall_impl; [exact Hy|]. cbn. intros. lia.
    + constructor; [done|]. rewrite sort_insert_perm. constructor; [lia|done].
Qed.

Lemma Array_sort_sorted (l : list A) :
  StronglySorted (λ a b, key a ≤ key b) (Array_sort (λ a b, key a - key b) l).
Proof.
  induction l as [|x l IH]; [constructor|].
  unfold Array_sort in *. cbn [foldr]. by apply sort_insert_sorted.
Qed.

Lemma sort_insert_stable t x (l : list A) :
  filter (λ a, key a = t) (sort_insert (λ a b, key a - key b) x l)
  = filter (λ a, key a = t) (x :: l).
Proof.
  induction l as [|y l IH]; [done|]. cbn [sort_insert].
  destruct (Z.leb_spec (key x - key y) 0) as [Hle|Hgt]; [done|].
  rewrite (filter_cons _ y), IH, !filter_cons.
  repeat case_decide; try done. lia.
Qed.

Lemma Array_sort_stable t (l : list A) :
  filter (λ a, key a = t) (Array_sort (λ a b, key a - key b) l)
  = filter (λ a, key a = t) l.
Proof.
  induction l as [|x l IH]; [done|].
  unfold Array_sort in *. cbn [foldr].
  by rewrite sort_insert_stable, !filter_cons, IH.
Qed.

Lemma Array_sort_of_sorted (l : list A) :
  StronglySorted (λ a b, key a ≤ key b) l →
  Array_sort (λ a b, key a - key b) l = l.
Proof.
  induction 1 as [|x l Hs IH Hx]; [done|].
  unfold Array_sort in *. cbn [foldr]. rewrite IH.
  destruct Hx as [|y l Hy _]; [done|]. cbn.
  by destruct (Z.leb_spec (key x - key y) 0); [|lia].
Qed.

End PanelFacts.

(** X11.  The panel of the selected day lists the selected entries, each as
    often as it is selected, by ascending [airing_at]; entries airing at
    the same instant keep the order they have in [selectedAnime].  The
    sort works on the array itself, and sorting it again at the next
    render changes nothing. *)
Theorem panel_items_sorted_stable st t :
  panel_items st ≡ₚ selectedAnime st
  ∧ StronglySorted (λ a b, airing_at a ≤ airing_at b) (panel_items st)
  ∧ filter (λ a, airing_at a = t) (panel_items st)
    = filter (λ a, airing_at a = t) (selectedAnime st)
  ∧ Array_sort (λ a b, airing_at a - airing_at b) (panel_items st)
    = panel_items st.
Proof.
  unfold panel_items. split; [apply Array_sort_perm|].
  split; [apply Array_sort_sorted|]. split; [apply Array_sort_stable|].
  apply Array_sort_of_sorted, Array_sort_sorted.
Qed.

(** The render of the panel sorts [selectedAnime] itself when the list is
    shown: a date is selected, no call is in flight and there are entries.
    When the array is the one of the index, the entry of the index is
    sorted with it. *)
Lemma render_panel_sorts shared st k item rest :
  selectedDate st = Some k →
  k ≠ "" →
  loading st = false →
  selectedAnime st = item :: rest →
  selectedAnime (render_panel shared st) = panel_items st
  ∧ scheduleData (render_panel shared st)
    = (if shared then <[k := panel_items st]> (scheduleData st)
       else scheduleData st).
Proof.
  intros Ed Hk El Ea. unfold render_panel. rewrite Ed, Ea, El.
  unfold truthy. destruct (String.eqb_spec k "") as [?|_]; [done|].
  cbn [negb andb selectedAnime scheduleData]. done.
Qed.

(** So the selected entries stay the entries of the index under the
    selected key when the panel is rendered. *)
Lemma render_panel_synchronised st k :
  selectedDate st = Some k →
  selectedAnime st = Map_get_or_empty (scheduleData st) k →
  selectedAnime (render_panel true st)
  = Map_get_or_empty (scheduleData (render_panel true st)) k.
Proof.
  intros Ed Ea. unfold render_panel. rewrite Ed.
  destruct (selectedAnime st) as [|item rest] eqn:E; [by rewrite E|].
  destruct (truthy (Some k) && negb (loading st)); [|by rewrite E].
  cbn [selectedAnime scheduleData]. unfold Map_get_or_empty.
  by rewrite lookup_insert_eq.
Qed.

(** ** [isToday] *)

Section TodayFacts.

Import JSDate.

Lemma pretty_N_go_nonempty x s : (0 < x)%N → pretty_N_go x s ≠ "".
Proof.
  intros Hx E. rewrite pretty_N_go_step in E by done.
  pose proof (length_pretty_N_go (x `div` 10)
                (String (pretty_N_char (x `mod` 10)) s)) as L.
  rewrite E in L. cbn in L. lia.
Qed.

(** A decimal numeral of a positive number starts neither with a zero
    nor with a minus sign. *)
Lemma pretty_N_go_head x : ∀ s r,
  (0 < x)%N →
  pretty_N_go x s ≠ "0" +:+ r ∧ pretty_N_go x s ≠ "-" +:+ r.
Proof.
  induction (N.lt_wf_0 x) as [x _ IH]; intros s r Hx.
  rewrite pretty_N_go_step by done.
  destruct (N.eq_0_gt_0_cases (x `div` 10)) as [E|Hd].
  - rewrite E, pretty_N_go_0.
    assert (x < 10)%N as Hlt.
    { pose proof (N.div_mod x 10) as Hq. pose proof (N.mod_lt x 10) as Hr.
      rewrite E in Hq. lia. }
    rewrite N.mod_small by done.
    assert (x = 1 ∨ x = 2 ∨ x = 3 ∨ x = 4 ∨ x = 5 ∨ x = 6 ∨ x = 7 ∨ x = 8
            ∨ x = 9)%N
      as [->|[->|[->|[->|[->|[->|[->|[->| ->]]]]]]]] by lia;
      by split.
  - apply IH; [|done]. apply N.div_lt; lia.
Qed.

Lemma numeral_head n :
  0 ≤ n →
  String_of_number n ≠ ""
  ∧ (∀ r, String_of_number n = "0" +:+ r → r = "")
  ∧ (∀ r, String_of_number n ≠ "-" +:+ r).
Proof.
  intros Hn. destruct n as [|p|p]; [|clear Hn|lia].
  - split; [done|]. split; [|done]. intros r E. by injection E.
  - unfold String_of_number, pretty, pretty_Z, pretty, pretty_positive, pretty,
      pretty_N.
    rewrite decide_False by done.
    split; [by apply pretty_N_go_nonempty|].
    split; intros r; [intros E; exfalso; revert E|];
      by apply pretty_N_go_head.
Qed.

(** Padding numerals to four digits keeps them apart and never produces
    a leading minus sign. *)
Lemma padStart_4_inj s1 s2 :
  s1 ≠ "" → (∀ r, s1 = "0" +:+ r → r = "") →
  s2 ≠ "" → (∀ r, s2 = "0" +:+ r → r = "") →
  padStart 4 "0" s1 = padStart 4 "0" s2 → s1 = s2.
Proof.
  intros N1 Z1 N2 Z2.
  destruct s1 as [|a1 [|b1 [|c1 [|d1 r1]]]]; [done|..];
    destruct s2 as [|a2 [|b2 [|c2 [|d2 r2]]]]; try done;
    intros E; vm_compute in E; try done; simplify_eq;
    try (by specialize (Z1 _ eq_refl)); try (by specialize (Z2 _ eq_refl)).
  all: done.
Qed.

Lemma padStart_4_no_sign s r :
  s ≠ "" → (∀ r, s ≠ "-" +:+ r) → padStart 4 "0" s ≠ "-" +:+ r.
Proof.
  intros N1 S1.
  destruct s as [|a1 [|b1 [|c1 [|d1 r1]]]]; [done|..]; intros E;
    vm_compute in E; try done; simplify_eq; by eapply S1.
Qed.

Lemma year_string_inj y1 y2 :
  (if 0 <=? y1 then "" else "-") +:+ padStart 4 "0" (String_of_number (Z.abs y1))
  = (if 0 <=? y2 then "" else "-") +:+ padStart 4 "0" (String_of_number (Z.abs y2)) →
  y1 = y2.
Proof.
  destruct (numeral_head (Z.abs y1)) as (N1 & Z1 & S1); [lia|].
  destruct (numeral_head (Z.abs y2)) as (N2 & Z2 & S2); [lia|].
  pose proof (padStart_4_inj _ _ N1 Z1 N2 Z2) as I.
  pose proof (λ r, padStart_4_no_sign _ r N1 S1) as P1.
  pose proof (λ r, padStart_4_no_sign _ r N2 S2) as P2.
  revert I P1 P2.
  generalize (padStart 4 "0" (String_of_number (Z.abs y1))),
    (padStart 4 "0" (String_of_number (Z.abs y2))).
  intros p1 p2 I P1 P2.
  destruct (Z.leb_spec 0 y1), (Z.leb_spec 0 y2); intros E.
  - apply I, (inj pretty) in E. lia.
  - exfalso. by eapply P1.
  - exfalso. by eapply P2.
  - change (String.append "-" p1 = String.append "-" p2) in E.
    assert (p1 = p2) as E' by (by injection E).
    apply I, (inj pretty) in E'. lia.
Qed.

Lemma weekdayName_length w : String.length (weekdayName w) = 3%nat.
Proof. unfold weekdayName. by repeat case_match. Qed.

Lemma monthName_length m : String.length (monthName m) = 3%nat.
Proof. unfold monthName. by repeat case_match. Qed.

Lemma monthName_inj m1 m2 :
  0 ≤ m1 ≤ 11 → 0 ≤ m2 ≤ 11 → monthName m1 = monthName m2 → m1 = m2.
Proof.
  intros H1 H2.
  destruct (month_cases m1 H1)
    as [->|[->|[->|[->|[->|[->|[->|[->|[->|[->|[->| ->]]]]]]]]]]];
    destruct (month_cases m2 H2)
      as [->|[->|[->|[->|[->|[->|[->|[->|[->|[->|[->| ->]]]]]]]]]]];
    by intros E.
Qed.

(** Two strings with prefixes of equal length are equal only if prefixes
    and suffixes are. *)
Lemma append_inj_prefix (s1 s2 t1 t2 : string) :
  String.length s1 = String.length s2 →
  s1 +:+ t1 = s2 +:+ t2 → s1 = s2 ∧ t1 = t2.
Proof.
  revert s2. induction s1 as [|c s1 IH]; intros [|c' s2] Hl H; try done.
  change (String c (s1 +:+ t1) = String c' (s2 +:+ t2)) in H.
  injection H as -> H. injection Hl as Hl.
  by destruct (IH s2 Hl H) as [-> ->].
Qed.

Variable tz : Z.

Lemma toDateString_inj d1 d2 :
  toDateString tz d1 = toDateString tz d2 → ymd tz d1 = ymd tz d2.
Proof.
  unfold toDateString, ymd, getFullYear, getMonth, getDate. cbv zeta.
  generalize (LocalTime tz d1), (LocalTime tz d2). intros t1 t2.
  pose proof (MonthFromTime_range t1) as M1.
  pose proof (MonthFromTime_range t2) as M2.
  pose proof (DateFromTime_range t1) as D1.
  pose proof (DateFromTime_range t2) as D2.
  pose proof (monthName_inj _ _ M1 M2) as Im.
  assert (0 ≤ DateFromTime t1 ≤ 99) as D1' by lia.
  assert (0 ≤ DateFromTime t2 ≤ 99) as D2' by lia.
  pose proof (padStart_2_inj _ _ D1' D2') as Id.
  destruct (padStart_2_numeral _ D1') as [_ L1].
  destruct (padStart_2_numeral _ D2') as [_ L2].
  pose proof (year_string_inj (YearFromTime t1) (YearFromTime t2)) as Iy.
  pose proof (weekdayName_length (WeekDay t1)) as W1.
  pose proof (weekdayName_length (WeekDay t2)) as W2.
  pose proof (monthName_length (MonthFromTime t1)) as N1.
  pose proof (monthName_length (MonthFromTime t2)) as N2.
  revert Im Id L1 L2 Iy W1 W2 N1 N2.
  generalize (weekdayName (WeekDay t1)), (weekdayName (WeekDay t2)),
    (monthName (MonthFromTime t1)), (monthName (MonthFromTime t2)),
    (padStart 2 "0" (String_of_number (DateFromTime t1))),
    (padStart 2 "0" (String_of_number (DateFromTime t2))),
    ((if 0 <=? YearFromTime t1 then "" else "-")
     +:+ padStart 4 "0" (String_of_number (Z.abs (YearFromTime t1)))),
    ((if 0 <=? YearFromTime t2 then "" else "-")
     +:+ padStart 4 "0" (String_of_number (Z.abs (YearFromTime t2)))).
  intros w1 w2 m1 m2 dd1 dd2 yy1 yy2 Im Id L1 L2 Iy W1 W2 N1 N2 E.
  apply append_inj_prefix in E as [_ E]; [|congruence].
  apply (append_inj_prefix " " " ") in E as [_ E]; [|done].
  apply append_inj_prefix in E as [Em E]; [|congruence].
  apply (append_inj_prefix " " " ") in E as [_ E]; [|done].
  apply append_inj_prefix in E as [Ed E]; [|congruence].
  apply (append_inj_prefix " " " ") in E as [_ E]; [|done].
  by rewrite (Iy E), (Im Em), (Id Ed).
Qed.

(** X14.  [isToday] compares the strings of [toDateString]; it holds of a date
    exactly when the date falls on the local calendar day of the clock,
    whatever the times of day. *)
Theorem isToday_iff_same_local_day now date :
  isToday tz now date = true ↔ localDay tz date = localDay tz now.
Proof.
  unfold isToday. rewrite String.eqb_eq. split.
  - intros E. by apply ymd_localDay, toDateString_inj.
  - intros E. unfold localDay in E.
    unfold toDateString, WeekDay, MonthFromTime, DateFromTime, MonthFromTime,
      InLeapYear, DayWithinYear, YearFromTime. cbv zeta. by rewrite E.
Qed.

End TodayFacts.

(** ** The older revision *)

Section LegacyFacts.

Import JSDate.

Lemma ymd_of_localDay tz1 tz2 d1 d2 :
  localDay tz1 d1 = localDay tz2 d2 → ymd tz1 d1 = ymd tz2 d2.
Proof.
  intros E. unfold ymd, getFullYear, getMonth, getDate, MonthFromTime,
    DateFromTime, MonthFromTime, InLeapYear, DayWithinYear, YearFromTime.
  unfold localDay in E. by rewrite E.
Qed.

Lemma Day_of_local_midnight t k tz :
  t + tz = k * msPerDay → - msPerDay < tz ≤ msPerDay →
  Day t = k + (if 0 <? tz then -1 else 0).
Proof.
  unfold Day, msPerDay. intros E Htz.
  destruct (Z.ltb_spec 0 tz); Z.div_mod_to_equations; lia.
Qed.

(** X15.  [formatDateKey] of the older revision takes the date of the
    instant in UTC, as [toISOString] prints it (the year with four digits,
    or with a sign and six digits outside 0..9999).  The days of the grid
    are local midnights: for a viewer east of UTC the key of a cell is
    the ISO date of the day before it, for a viewer at or west of UTC
    that of the cell's own day. *)
Theorem Legacy_formatDateKey_of_local_midnight tz d :
  atMidnight tz d → - msPerDay < tz ≤ msPerDay →
  let '(y, m, date) := ymd tz (addDays d (if 0 <? tz then -1 else 0)) in
  Legacy.formatDateKey d = Legacy.isoDate y (m + 1) date.
Proof.
  intros Hm Htz.
  assert (ymd 0 d = ymd tz (addDays d (if 0 <? tz then -1 else 0))) as <-.
  { apply ymd_of_localDay. rewrite localDay_addDays.
    unfold atMidnight in Hm. revert Hm. generalize (localDay tz d).
    intros k Hm. unfold localDay, LocalTime in *.
    rewrite Z.add_0_r. by apply Day_of_local_midnight. }
  done.
Qed.

(** X16.  The index of the older revision: under every key, the fetched items
    whose [airing_date], as the server sent it, is that key, unchanged and
    in fetch order; the requests that failed are skipped.  The viewer's
    time zone plays no part in it. *)
Theorem LegacyLoad_index_by_server_date weekResults k :
  Map_get_or_empty (LegacyLoad.newScheduleData weekResults) k
  = filter (λ item, airing_date item = k) (fetched_items weekResults).
Proof.
  unfold LegacyLoad.newScheduleData. by rewrite LegacyLoad_lookup, lookup_empty_index.
Qed.

End LegacyFacts.

Lemma Legacy_formatDateKey_of_local_midnight_witness :
  atMidnight (9 * 3600000) (Date_ymd (9 * 3600000) 2025 0 15)
  ∧ - JSDate.msPerDay < 9 * 3600000 ≤ JSDate.msPerDay
  ∧ Legacy.formatDateKey (Date_ymd (9 * 3600000) 2025 0 15) = "2025-01-14".
Proof.
  assert (atMidnight (9 * 3600000) (Date_ymd (9 * 3600000) 2025 0 15)) as Hm
    by (vm_compute; reflexivity).
  assert (- JSDate.msPerDay < 9 * 3600000 ≤ JSDate.msPerDay) as Htz
    by (unfold JSDate.msPerDay; lia).
  split; [exact Hm|]. split; [exact Htz|].
  exact (Legacy_formatDateKey_of_local_midnight (9 * 3600000)
           (Date_ymd (9 * 3600000) 2025 0 15) Hm Htz).
Defined.
